(** * Fluid Wall: the sensor-driven injection layer of fluidWall.cpp

    A shallow embedding of the functions of [fluidWall.cpp] that translate
    the depth camera's silhouette and optical flow into boundary, velocity
    and density writes on the fluid solver, that manage the splash emitters,
    that switch display modes, and that blend the per-user densities into
    one colour.

    Conventions of the embedding.
    - A C++ [int] is a [Z].  Signed overflow is undefined in C++, so the
      embedding describes the runs in which every [int] stays in range.
      Integer division is [Z.quot] (truncation toward zero).
    - A C++ [float] is an exact rational [Q]: no rounding, no infinities,
      no NaN.  Equality of floats is [Qeq].  A conversion from [float] to
      [int] truncates toward zero ([float_to_int]).  A division by zero,
      which C++ leaves undefined on [int] and sends to an infinity or NaN
      on [float], yields 0 here, as [Z.quot] and [Qdiv] do.
    - The globals of the translation unit are the fields of [World]; every
      function of the source takes a [World] and returns the next one.
    - [FluidSolver* flSolver] is a [SolverPtr]: the name of one of the two
      solver objects of the program, so that writes through [flSolver] and
      writes through the global [userSolver] land in the same object when
      the two are aliased. *)

From Stdlib Require Import ZArith QArith Qabs Bool List String Ascii Lia Lqa.
Import ListNotations.

Open Scope Z_scope.

(** ** Numbers *)

(** Conversion of a [float] to an [int]: the fractional part is dropped. *)
Definition float_to_int (q : Q) : Z := Z.quot (Qnum q) (Zpos (Qden q)).

(** [a < b] on floats, as a boolean. *)
Definition Qltb (a b : Q) : bool := negb (Qle_bool b a).

(** The values [lo, lo+1, ..., hi] visited by
    [for (v = lo; v <= hi; v++)]; empty when [hi < lo]. *)
Definition zrange (lo hi : Z) : list Z :=
  map (fun k => lo + Z.of_nat k) (seq 0 (Z.to_nat (hi - lo + 1))).

(** ** Data *)

Record Point2f := { pt_x : Q; pt_y : Q }.

(** [typedef struct { Point2f center; Point2f vel; int lifespan,
    life_elapsed; int radius; int userNo; } Emitter;] *)
Record Emitter := {
  center : Point2f;
  vel : Point2f;
  lifespan : Z;
  life_elapsed : Z;
  radius : Z;
  userNo : Z
}.

(** A single-channel 8-bit [cv::Mat]; [pixel m row col] is
    [m.at<uchar>(row, col)]. *)
Record Mat := { rows : Z; cols : Z; pixel : Z -> Z -> Z }.

(** The optical-flow matrix ([CV_32FC2]); [fm row col] is
    [flow.at<Point2f>(row, col)]. *)
Definition FlowMat := Z -> Z -> Point2f.

Record RGBType := { R : Q; G : Q; B : Q }.

(** ** Constants *)

Definition N_DEF : Z := 128.
Definition FLOW_SCALAR : Q := 1 # 10.
Definition NUM_SPLASH_ROWS : Z := 80.
Definition BG_OFFSET : Q := 1 # 10.
Definition MAX_USERS : Z := 6.
Definition MAX_EMITTERS : Z := 200.

Definition Colors : list (Q * Q * Q) :=
  [ (0, 0, 0); (0, 1, 1); (1 # 2, 1, 0); (1 # 2, 1 # 2, 0);
    (0, 4 # 10, 6 # 10); (0, 1, 0); (1, 1 # 2, 0); (1, 1, 0);
    (1, 0, 0); (0, 1 # 2, 1); (1, 1, 1 # 2); (1, 1, 1) ]%Q.

Definition ColorsWhiteBG : list (Q * Q * Q) :=
  [ (2 # 100, 2 # 100, 2 # 100); (0, 1, 1); (1 # 2, 1, 0); (1, 1 # 2, 0);
    (0, 0, 1); (0, 1, 0); (1, 1, 0); (1, 0, 0);
    (0, 1 # 2, 1); (1 # 2, 0, 1); (1, 1, 1 # 2); (1, 1, 1) ]%Q.

(** [table[i][k]] for a row index [i] and a channel [k] in 0..2. *)
Definition color_at (table : list (Q * Q * Q)) (i : Z) (k : nat) : Q :=
  let '(r, g, b) := nth (Z.to_nat i) table (0, 0, 0)%Q in
  match k with O => r | S O => g | _ => b end.

(** ** The fluid solver *)

(** Modelled from the spec: the classes [FluidSolver] and
    [FluidSolverMultiUser] are declared in [FluidSolver.h] and
    [FluidSolverMultiUser.h], outside [fluidWall.cpp].  Section 6 of the specification gives
    their shape: per cell a boundary flag, a horizontal and a vertical
    velocity and a density, the multi-user variant holding one density per
    user; [add...At] adds its argument to the addressed value,
    [setBoundAt] stores the flag, the getters read back, [reset] zeroes all
    fields.  A cell is addressed by two [int]s; the fields are total maps
    on [Z * Z], so that a write outside the allocated (N+2) x (N+2) grid is
    visible in the model rather than lost. *)
Record FluidSolver := {
  bounds : Z -> Z -> bool;
  horzVelocity : Z -> Z -> Q;
  vertVelocity : Z -> Z -> Q;
  density : Z -> Z -> Q;
  userDensity : Z -> Z -> Z -> Q
}.

Definition same_cell (x y x' y' : Z) : bool := (x' =? x) && (y' =? y).

Definition upd {A} (f : Z -> Z -> A) (x y : Z) (v : A) : Z -> Z -> A :=
  fun x' y' => if same_cell x y x' y' then v else f x' y'.

Module Solver.

Definition isBoundAt (x y : Z) (s : FluidSolver) : bool := bounds s x y.
Definition getHorzVelocityAt (x y : Z) (s : FluidSolver) : Q :=
  horzVelocity s x y.
Definition getVertVelocityAt (x y : Z) (s : FluidSolver) : Q :=
  vertVelocity s x y.
Definition getDensityAt (x y : Z) (s : FluidSolver) : Q := density s x y.
Definition getUserDensityAt (u x y : Z) (s : FluidSolver) : Q :=
  userDensity s u x y.

Definition setBoundAt (x y : Z) (b : bool) (s : FluidSolver) : FluidSolver :=
  {| bounds := upd (bounds s) x y b;
     horzVelocity := horzVelocity s;
     vertVelocity := vertVelocity s;
     density := density s;
     userDensity := userDensity s |}.

Definition addHorzVelocityAt (x y : Z) (d : Q) (s : FluidSolver) : FluidSolver :=
  {| bounds := bounds s;
     horzVelocity := upd (horzVelocity s) x y (horzVelocity s x y + d)%Q;
     vertVelocity := vertVelocity s;
     density := density s;
     userDensity := userDensity s |}.

Definition addVertVelocityAt (x y : Z) (d : Q) (s : FluidSolver) : FluidSolver :=
  {| bounds := bounds s;
     horzVelocity := horzVelocity s;
     vertVelocity := upd (vertVelocity s) x y (vertVelocity s x y + d)%Q;
     density := density s;
     userDensity := userDensity s |}.

Definition addDensityAt (x y : Z) (d : Q) (s : FluidSolver) : FluidSolver :=
  {| bounds := bounds s;
     horzVelocity := horzVelocity s;
     vertVelocity := vertVelocity s;
     density := upd (density s) x y (density s x y + d)%Q;
     userDensity := userDensity s |}.

Definition addUserDensityAt (u x y : Z) (d : Q) (s : FluidSolver) : FluidSolver :=
  {| bounds := bounds s;
     horzVelocity := horzVelocity s;
     vertVelocity := vertVelocity s;
     density := density s;
     userDensity := fun u' =>
       if u' =? u then upd (userDensity s u) x y (userDensity s u x y + d)%Q
       else userDensity s u' |}.

Definition reset (s : FluidSolver) : FluidSolver :=
  {| bounds := fun _ _ => false;
     horzVelocity := fun _ _ => 0%Q;
     vertVelocity := fun _ _ => 0%Q;
     density := fun _ _ => 0%Q;
     userDensity := fun _ _ _ => 0%Q |}.

End Solver.

(** ** Global state *)

(** Which solver object a [FluidSolver*] points to. *)
Inductive SolverPtr := PtrSolver | PtrUserSolver.

Record World := {
  N : Z;
  force : Q;
  source : Q;
  solver : FluidSolver;
  userSolver : FluidSolver;
  useUserSolver : bool;
  useFlow : bool;
  emitters : list Emitter;
  flow : FlowMat;
  flowImg : option Mat;
  prevFlowImg : option Mat;
  usersMatrixResize : Mat;
  dvel : bool;
  dbound : bool;
  dusers : bool;
  autoChangeMode : bool;
  useWhiteBackground : bool;
  mode : Z;
  max_mode : Z;
  iterations : Z;
  iterations_per_mode : Z;
  stdout : list string
}.

(** Assignments to single globals. *)

Definition set_solver (v : FluidSolver) (w : World) : World :=
  {| N := N w; force := force w; source := source w; solver := v;
     userSolver := userSolver w; useUserSolver := useUserSolver w;
     useFlow := useFlow w; emitters := emitters w; flow := flow w;
     flowImg := flowImg w; prevFlowImg := prevFlowImg w;
     usersMatrixResize := usersMatrixResize w; dvel := dvel w;
     dbound := dbound w; dusers := dusers w;
     autoChangeMode := autoChangeMode w;
     useWhiteBackground := useWhiteBackground w; mode := mode w;
     max_mode := max_mode w; iterations := iterations w;
     iterations_per_mode := iterations_per_mode w; stdout := stdout w |}.

Definition set_userSolver (v : FluidSolver) (w : World) : World :=
  {| N := N w; force := force w; source := source w; solver := solver w;
     userSolver := v; useUserSolver := useUserSolver w;
     useFlow := useFlow w; emitters := emitters w; flow := flow w;
     flowImg := flowImg w; prevFlowImg := prevFlowImg w;
     usersMatrixResize := usersMatrixResize w; dvel := dvel w;
     dbound := dbound w; dusers := dusers w;
     autoChangeMode := autoChangeMode w;
     useWhiteBackground := useWhiteBackground w; mode := mode w;
     max_mode := max_mode w; iterations := iterations w;
     iterations_per_mode := iterations_per_mode w; stdout := stdout w |}.

Definition set_emitters (v : list Emitter) (w : World) : World :=
  {| N := N w; force := force w; source := source w; solver := solver w;
     userSolver := userSolver w; useUserSolver := useUserSolver w;
     useFlow := useFlow w; emitters := v; flow := flow w;
     flowImg := flowImg w; prevFlowImg := prevFlowImg w;
     usersMatrixResize := usersMatrixResize w; dvel := dvel w;
     dbound := dbound w; dusers := dusers w;
     autoChangeMode := autoChangeMode w;
     useWhiteBackground := useWhiteBackground w; mode := mode w;
     max_mode := max_mode w; iterations := iterations w;
     iterations_per_mode := iterations_per_mode w; stdout := stdout w |}.

Definition set_flow (v : FlowMat) (w : World) : World :=
  {| N := N w; force := force w; source := source w; solver := solver w;
     userSolver := userSolver w; useUserSolver := useUserSolver w;
     useFlow := useFlow w; emitters := emitters w; flow := v;
     flowImg := flowImg w; prevFlowImg := prevFlowImg w;
     usersMatrixResize := usersMatrixResize w; dvel := dvel w;
     dbound := dbound w; dusers := dusers w;
     autoChangeMode := autoChangeMode w;
     useWhiteBackground := useWhiteBackground w; mode := mode w;
     max_mode := max_mode w; iterations := iterations w;
     iterations_per_mode := iterations_per_mode w; stdout := stdout w |}.

Definition set_flowImg (v : option Mat) (w : World) : World :=
  {| N := N w; force := force w; source := source w; solver := solver w;
     userSolver := userSolver w; useUserSolver := useUserSolver w;
     useFlow := useFlow w; emitters := emitters w; flow := flow w;
     flowImg := v; prevFlowImg := prevFlowImg w;
     usersMatrixResize := usersMatrixResize w; dvel := dvel w;
     dbound := dbound w; dusers := dusers w;
     autoChangeMode := autoChangeMode w;
     useWhiteBackground := useWhiteBackground w; mode := mode w;
     max_mode := max_mode w; iterations := iterations w;
     iterations_per_mode := iterations_per_mode w; stdout := stdout w |}.

Definition set_useFlow (v : bool) (w : World) : World :=
  {| N := N w; force := force w; source := source w; solver := solver w;
     userSolver := userSolver w; useUserSolver := useUserSolver w;
     useFlow := v; emitters := emitters w; flow := flow w;
     flowImg := flowImg w; prevFlowImg := prevFlowImg w;
     usersMatrixResize := usersMatrixResize w; dvel := dvel w;
     dbound := dbound w; dusers := dusers w;
     autoChangeMode := autoChangeMode w;
     useWhiteBackground := useWhiteBackground w; mode := mode w;
     max_mode := max_mode w; iterations := iterations w;
     iterations_per_mode := iterations_per_mode w; stdout := stdout w |}.

Definition set_dvel (v : bool) (w : World) : World :=
  {| N := N w; force := force w; source := source w; solver := solver w;
     userSolver := userSolver w; useUserSolver := useUserSolver w;
     useFlow := useFlow w; emitters := emitters w; flow := flow w;
     flowImg := flowImg w; prevFlowImg := prevFlowImg w;
     usersMatrixResize := usersMatrixResize w; dvel := v;
     dbound := dbound w; dusers := dusers w;
     autoChangeMode := autoChangeMode w;
     useWhiteBackground := useWhiteBackground w; mode := mode w;
     max_mode := max_mode w; iterations := iterations w;
     iterations_per_mode := iterations_per_mode w; stdout := stdout w |}.

Definition set_dbound (v : bool) (w : World) : World :=
  {| N := N w; force := force w; source := source w; solver := solver w;
     userSolver := userSolver w; useUserSolver := useUserSolver w;
     useFlow := useFlow w; emitters := emitters w; flow := flow w;
     flowImg := flowImg w; prevFlowImg := prevFlowImg w;
     usersMatrixResize := usersMatrixResize w; dvel := dvel w; dbound := v;
     dusers := dusers w; autoChangeMode := autoChangeMode w;
     useWhiteBackground := useWhiteBackground w; mode := mode w;
     max_mode := max_mode w; iterations := iterations w;
     iterations_per_mode := iterations_per_mode w; stdout := stdout w |}.

Definition set_dusers (v : bool) (w : World) : World :=
  {| N := N w; force := force w; source := source w; solver := solver w;
     userSolver := userSolver w; useUserSolver := useUserSolver w;
     useFlow := useFlow w; emitters := emitters w; flow := flow w;
     flowImg := flowImg w; prevFlowImg := prevFlowImg w;
     usersMatrixResize := usersMatrixResize w; dvel := dvel w;
     dbound := dbound w; dusers := v; autoChangeMode := autoChangeMode w;
     useWhiteBackground := useWhiteBackground w; mode := mode w;
     max_mode := max_mode w; iterations := iterations w;
     iterations_per_mode := iterations_per_mode w; stdout := stdout w |}.

Definition set_autoChangeMode (v : bool) (w : World) : World :=
  {| N := N w; force := force w; source := source w; solver := solver w;
     userSolver := userSolver w; useUserSolver := useUserSolver w;
     useFlow := useFlow w; emitters := emitters w; flow := flow w;
     flowImg := flowImg w; prevFlowImg := prevFlowImg w;
     usersMatrixResize := usersMatrixResize w; dvel := dvel w;
     dbound := dbound w; dusers := dusers w; autoChangeMode := v;
     useWhiteBackground := useWhiteBackground w; mode := mode w;
     max_mode := max_mode w; iterations := iterations w;
     iterations_per_mode := iterations_per_mode w; stdout := stdout w |}.

Definition set_mode (v : Z) (w : World) : World :=
  {| N := N w; force := force w; source := source w; solver := solver w;
     userSolver := userSolver w; useUserSolver := useUserSolver w;
     useFlow := useFlow w; emitters := emitters w; flow := flow w;
     flowImg := flowImg w; prevFlowImg := prevFlowImg w;
     usersMatrixResize := usersMatrixResize w; dvel := dvel w;
     dbound := dbound w; dusers := dusers w;
     autoChangeMode := autoChangeMode w;
     useWhiteBackground := useWhiteBackground w; mode := v;
     max_mode := max_mode w; iterations := iterations w;
     iterations_per_mode := iterations_per_mode w; stdout := stdout w |}.

Definition set_iterations (v : Z) (w : World) : World :=
  {| N := N w; force := force w; source := source w; solver := solver w;
     userSolver := userSolver w; useUserSolver := useUserSolver w;
     useFlow := useFlow w; emitters := emitters w; flow := flow w;
     flowImg := flowImg w; prevFlowImg := prevFlowImg w;
     usersMatrixResize := usersMatrixResize w; dvel := dvel w;
     dbound := dbound w; dusers := dusers w;
     autoChangeMode := autoChangeMode w;
     useWhiteBackground := useWhiteBackground w; mode := mode w;
     max_mode := max_mode w; iterations := v;
     iterations_per_mode := iterations_per_mode w; stdout := stdout w |}.

Definition set_stdout (v : list string) (w : World) : World :=
  {| N := N w; force := force w; source := source w; solver := solver w;
     userSolver := userSolver w; useUserSolver := useUserSolver w;
     useFlow := useFlow w; emitters := emitters w; flow := flow w;
     flowImg := flowImg w; prevFlowImg := prevFlowImg w;
     usersMatrixResize := usersMatrixResize w; dvel := dvel w;
     dbound := dbound w; dusers := dusers w;
     autoChangeMode := autoChangeMode w;
     useWhiteBackground := useWhiteBackground w; mode := mode w;
     max_mode := max_mode w; iterations := iterations w;
     iterations_per_mode := iterations_per_mode w; stdout := v |}.

(** [std::swap(prevFlowImg, flowImg)]. *)
Definition swap_flow_images (w : World) : World :=
  {| N := N w; force := force w; source := source w; solver := solver w;
     userSolver := userSolver w; useUserSolver := useUserSolver w;
     useFlow := useFlow w; emitters := emitters w; flow := flow w;
     flowImg := prevFlowImg w; prevFlowImg := flowImg w;
     usersMatrixResize := usersMatrixResize w; dvel := dvel w;
     dbound := dbound w; dusers := dusers w;
     autoChangeMode := autoChangeMode w;
     useWhiteBackground := useWhiteBackground w; mode := mode w;
     max_mode := max_mode w; iterations := iterations w;
     iterations_per_mode := iterations_per_mode w; stdout := stdout w |}.

(** The seven assignments of one [case] of [changeMode]. *)
Definition set_config (v_source : Q) (v_dvel v_dbound v_dusers : bool)
    (v_useFlow v_useUserSolver v_useWhiteBackground : bool)
    (w : World) : World :=
  {| N := N w; force := force w; source := v_source; solver := solver w;
     userSolver := userSolver w; useUserSolver := v_useUserSolver;
     useFlow := v_useFlow; emitters := emitters w; flow := flow w;
     flowImg := flowImg w; prevFlowImg := prevFlowImg w;
     usersMatrixResize := usersMatrixResize w; dvel := v_dvel;
     dbound := v_dbound; dusers := v_dusers;
     autoChangeMode := autoChangeMode w;
     useWhiteBackground := v_useWhiteBackground; mode := mode w;
     max_mode := max_mode w; iterations := iterations w;
     iterations_per_mode := iterations_per_mode w; stdout := stdout w |}.

(** ** Calls through a solver pointer *)

Definition deref (fl : SolverPtr) (w : World) : FluidSolver :=
  match fl with
  | PtrSolver => solver w
  | PtrUserSolver => userSolver w
  end.

Definition store (fl : SolverPtr) (s : FluidSolver) (w : World) : World :=
  match fl with
  | PtrSolver => set_solver s w
  | PtrUserSolver => set_userSolver s w
  end.

Definition isBoundAt (fl : SolverPtr) (x y : Z) (w : World) : bool :=
  Solver.isBoundAt x y (deref fl w).

Definition setBoundAt (fl : SolverPtr) (x y : Z) (b : bool) (w : World) : World :=
  store fl (Solver.setBoundAt x y b (deref fl w)) w.

Definition addHorzVelocityAt (fl : SolverPtr) (x y : Z) (d : Q) (w : World) : World :=
  store fl (Solver.addHorzVelocityAt x y d (deref fl w)) w.

Definition addVertVelocityAt (fl : SolverPtr) (x y : Z) (d : Q) (w : World) : World :=
  store fl (Solver.addVertVelocityAt x y d (deref fl w)) w.

Definition addDensityAt (fl : SolverPtr) (x y : Z) (d : Q) (w : World) : World :=
  store fl (Solver.addDensityAt x y d (deref fl w)) w.

(** [userSolver->addDensityAt(userNo, x, y, density)]. *)
Definition userSolver_addDensityAt (u x y : Z) (d : Q) (w : World) : World :=
  set_userSolver (Solver.addUserDensityAt u x y d (userSolver w)) w.

(** [for (v = lo; v <= hi; v++) body]. *)
Definition for_range (lo hi : Z) (body : Z -> World -> World) (w : World) : World :=
  fold_left (fun acc v => body v acc) (zrange lo hi) w.

(** [cout << line << endl]. *)
Definition print (line : string) (w : World) : World :=
  set_stdout (stdout w ++ [line]) w.

(** ** Clearing and allocating *)

Definition clearData (w : World) : World :=
  let w1 :=
    if useUserSolver w then set_userSolver (Solver.reset (userSolver w)) w
    else set_solver (Solver.reset (solver w)) w in
  set_emitters [] w1.

(** [Emitter newEmit = {Point(0, 0), Point2f(0, 0), 1, 2, 1, 0};] *)
Definition placeholderEmitter : Emitter :=
  {| center := {| pt_x := 0; pt_y := 0 |};
     vel := {| pt_x := 0; pt_y := 0 |};
     lifespan := 1; life_elapsed := 2; radius := 1; userNo := 0 |}.

(** A value-initialised [Emitter], as [vector<Emitter> emitters(MAX_EMITTERS)]
    holds them. *)
Definition zeroEmitter : Emitter :=
  {| center := {| pt_x := 0; pt_y := 0 |};
     vel := {| pt_x := 0; pt_y := 0 |};
     lifespan := 0; life_elapsed := 0; radius := 0; userNo := 0 |}.

Definition emptyMat : Mat := {| rows := 0; cols := 0; pixel := fun _ _ => 0 |}.

Definition freshSolver : FluidSolver :=
  {| bounds := fun _ _ => false;
     horzVelocity := fun _ _ => 0%Q;
     vertVelocity := fun _ _ => 0%Q;
     density := fun _ _ => 0%Q;
     userDensity := fun _ _ _ => 0%Q |}.

(** The globals as their initialisers leave them before [main] runs. *)
Definition initial_world : World :=
  {| N := 0; force := 5; source := 20;
     solver := freshSolver; userSolver := freshSolver;
     useUserSolver := false; useFlow := false;
     emitters := repeat zeroEmitter (Z.to_nat MAX_EMITTERS);
     flow := fun _ _ => {| pt_x := 0; pt_y := 0 |};
     flowImg := None; prevFlowImg := None;
     usersMatrixResize := emptyMat;
     dvel := false; dbound := false; dusers := false;
     autoChangeMode := false; useWhiteBackground := false;
     mode := 0; max_mode := 0; iterations := 0; iterations_per_mode := 500;
     stdout := [] |}.

Definition allocateData (w : World) : World :=
  {| N := N_DEF; force := force w; source := source w;
     solver := freshSolver; userSolver := freshSolver;
     useUserSolver := useUserSolver w; useFlow := true;
     emitters := emitters w ++ repeat placeholderEmitter (Z.to_nat MAX_EMITTERS);
     flow := fun _ _ => {| pt_x := 0; pt_y := 0 |};
     flowImg := flowImg w; prevFlowImg := prevFlowImg w;
     usersMatrixResize := usersMatrixResize w;
     dvel := dvel w; dbound := dbound w; dusers := dusers w;
     autoChangeMode := autoChangeMode w;
     useWhiteBackground := useWhiteBackground w;
     mode := mode w; max_mode := max_mode w; iterations := iterations w;
     iterations_per_mode := iterations_per_mode w; stdout := stdout w |}.

(** ** Boundary mapper *)

(** The loop runs over the pixels [(y, x)] of the image and writes the flag
    of cell [(x, y)]: the coordinates are passed to [setBoundAt] as they
    are. *)
Definition defineBoundsFromImage (fl : SolverPtr) (img : Mat) (w : World) : World :=
  for_range 0 (rows img - 1) (fun y =>
    for_range 0 (cols img - 1) (fun x w' =>
      let pixelVal := pixel img y x in
      if 0 <? pixelVal then setBoundAt fl x y true w'
      else setBoundAt fl x y false w')) w.

(** ** Flow force translator *)

Section OpticalFlow.

(** OpenCV's dense optical-flow estimator: from the previous image, the
    current image and the flow matrix it is handed, the flow matrix it
    leaves.  It belongs to the OpenCV library. *)
Variable calcOpticalFlowFarneback : Mat -> option Mat -> FlowMat -> FlowMat.

Definition computeOpticalFlow (fl : SolverPtr) (w : World) : World :=
  let w1 :=
    match prevFlowImg w with
    | Some prev =>
        let w0 := set_flow (calcOpticalFlowFarneback prev (flowImg w) (flow w)) w in
        for_range 1 (N w0 - 1) (fun y =>
          for_range 1 (N w0 - 1) (fun x w' =>
            let fxy := flow w' y x in
            let w'' := addHorzVelocityAt fl x y (FLOW_SCALAR * pt_x fxy)%Q w' in
            addVertVelocityAt fl x y (FLOW_SCALAR * pt_y fxy)%Q w'')) w0
    | None => w
    end in
  swap_flow_images w1.

End OpticalFlow.

(** ** Splash emitters *)

(** [e[i].lifespan - e[i].life_elapsed == 0] *)
Definition emitterHasExpired (e : Emitter) : bool :=
  lifespan e - life_elapsed e =? 0.

(** [float lifescalar = (lifespan - life_elapsed) / lifespan;] both operands
    are [int], so the quotient is taken on integers and then converted. *)
Definition lifescalar (e : Emitter) : Q :=
  inject_Z (Z.quot (lifespan e - life_elapsed e) (lifespan e)).

(** The four clamped corners; each conditional is evaluated on floats and
    stored into an [int] coordinate of [Point]. *)
Definition lowerCoord_y (e : Emitter) : Z :=
  let d := (pt_y (center e) - inject_Z (radius e))%Q in
  float_to_int (if Qltb d 1 then 1%Q else d).

Definition lowerCoord_x (e : Emitter) : Z :=
  let d := (pt_x (center e) - inject_Z (radius e))%Q in
  float_to_int (if Qltb d 1 then 1%Q else d).

Definition upperCoord_y (n : Z) (e : Emitter) : Z :=
  let d := (pt_y (center e) + inject_Z (radius e))%Q in
  float_to_int (if Qltb (inject_Z n) d then inject_Z n else d).

Definition upperCoord_x (n : Z) (e : Emitter) : Z :=
  let d := (pt_x (center e) + inject_Z (radius e))%Q in
  float_to_int (if Qltb (inject_Z n) d then inject_Z n else d).

(** The density one emitter adds at cell [(x, y)]:
    [source * dscalar * lifescalar]. *)
Definition emitterDensity (src : Q) (e : Emitter) (x y : Z) : Q :=
  let vscalar := (Qabs (inject_Z y - pt_y (center e)) / inject_Z (radius e))%Q in
  let uscalar := (Qabs (inject_Z x - pt_x (center e)) / inject_Z (radius e))%Q in
  let dscalar := ((vscalar + uscalar) / 2)%Q in
  (src * dscalar * lifescalar e)%Q.

(** The body of the inner loop of [renderEmitters] at cell [(x, y)]. *)
Definition injectCell (fl : SolverPtr) (e : Emitter) (x y : Z) (w : World) : World :=
  let vscalar := (Qabs (inject_Z y - pt_y (center e)) / inject_Z (radius e))%Q in
  let uscalar := (Qabs (inject_Z x - pt_x (center e)) / inject_Z (radius e))%Q in
  let horzVel := (pt_x (vel e) * uscalar)%Q in
  let vertVel := (pt_y (vel e) * vscalar)%Q in
  let density := emitterDensity (source w) e x y in
  let w1 := addHorzVelocityAt fl x y horzVel w in
  let w2 := addVertVelocityAt fl x y vertVel w1 in
  if useUserSolver w2 then userSolver_addDensityAt (userNo e) x y density w2
  else addDensityAt fl x y density w2.

(** The two nested [for] loops of one emitter. *)
Definition injectEmitter (fl : SolverPtr) (e : Emitter) (w : World) : World :=
  for_range (lowerCoord_y e) (upperCoord_y (N w) e) (fun y =>
    for_range (lowerCoord_x e) (upperCoord_x (N w) e) (fun x =>
      injectCell fl e x y)) w.

(** [e[i].life_elapsed++] *)
Definition ageEmitter (e : Emitter) : Emitter :=
  {| center := center e; vel := vel e; lifespan := lifespan e;
     life_elapsed := life_elapsed e + 1; radius := radius e;
     userNo := userNo e |}.

(** The [while (i < e.size())] scan.  An expired emitter is erased and the
    index stays, so the next element is examined; any other emitter injects,
    ages and the index moves on.  Each element is therefore visited once, in
    order: a recursion on the pool, returning the pool left behind. *)
Fixpoint renderLoop (fl : SolverPtr) (es : list Emitter) (w : World)
  : list Emitter * World :=
  match es with
  | [] => ([], w)
  | e :: rest =>
      if emitterHasExpired e then renderLoop fl rest w
      else
        let w1 := injectEmitter fl e w in
        let '(rest', w2) := renderLoop fl rest w1 in
        (ageEmitter e :: rest', w2)
  end.

(** [renderEmitters(flSolver, emitters)]: the vector handed in is always the
    global pool. *)
Definition renderEmitters (fl : SolverPtr) (w : World) : World :=
  let '(es, w1) := renderLoop fl (emitters w) w in
  set_emitters es w1.

Definition createEmitterAt (center_x center_y : Z) (force_u force_v : Q)
    (lifespan0 radius0 userNo0 : Z) (w : World) : World :=
  let newEmit :=
    {| center := {| pt_x := inject_Z center_x; pt_y := inject_Z center_y |};
       vel := {| pt_x := force_u; pt_y := force_v |};
       lifespan := lifespan0; life_elapsed := 0;
       radius := radius0; userNo := userNo0 |} in
  set_emitters (emitters w ++ [newEmit]) w.

(** [int velocityEmissionThreshold = -0.05;] the initialiser is converted
    to [int]. *)
Definition velocityEmissionThreshold : Z := float_to_int (- (5 # 100)).

(** The body of the splash-row scan of [emitSplashes] at column [i],
    row [j]. *)
Definition splashCell (fl : SolverPtr) (fm : FlowMat) (i j : Z) (w : World) : World :=
  let vertBoundChangesToYes :=
    negb (isBoundAt fl i j w) && isBoundAt fl i (j + 1) w in
  if vertBoundChangesToYes then
    let opticalFlowVelocity := fm i j in
    let fu := ((8 # 10) * pt_x opticalFlowVelocity)%Q in
    let fv := ((8 # 10) * pt_y opticalFlowVelocity)%Q in
    if Qltb (pt_y opticalFlowVelocity) (inject_Z velocityEmissionThreshold) then
      if useUserSolver w then
        let userNo0 := pixel (usersMatrixResize w) i (j + 1) in
        createEmitterAt i (j - 1) fu fv 6 3 userNo0 w
      else
        createEmitterAt i (j - 1) fu fv 6 3 1 w
    else w
  else w.

(** The body of the full-grid scan used when optical flow is off. *)
Definition edgeImpulseCell (fl : SolverPtr) (i j : Z) (w : World) : World :=
  let horzBoundChangesToYes :=
    negb (isBoundAt fl i j w) && isBoundAt fl (i + 1) j w in
  let horzBoundChangesToNo :=
    isBoundAt fl i j w && negb (isBoundAt fl (i + 1) j w) in
  if horzBoundChangesToYes then
    let w1 := addHorzVelocityAt fl i j (force w * - (5 # 100))%Q w in
    addVertVelocityAt fl i j (force w * (1 # 10))%Q w1
  else if horzBoundChangesToNo then
    let w1 := addHorzVelocityAt fl (i + 1) j (force w * (5 # 100))%Q w in
    addVertVelocityAt fl (i + 1) j (force w * (1 # 10))%Q w1
  else w.

(** The scan of the splash rows: [for (j = 1; j < NUM_SPLASH_ROWS; j++)
    for (i = 1; i <= N; i++)]. *)
Definition splashScan (fl : SolverPtr) (fm : FlowMat) (w : World) : World :=
  for_range 1 (NUM_SPLASH_ROWS - 1) (fun j =>
    for_range 1 (N w) (fun i => splashCell fl fm i j)) w.

Definition emitSplashes (fl : SolverPtr) (fm : FlowMat) (w : World) : World :=
  if useFlow w then
    renderEmitters fl (splashScan fl fm w)
  else
    for_range 1 (N w) (fun j =>
      for_range 1 (N w) (fun i => edgeImpulseCell fl i j)) w.

(** ** Mode state machine *)

Definition changeMode (newMode : Z) (w : World) : World :=
  let w1 := set_mode newMode w in
  let w2 := clearData w1 in
  match newMode with
  | 0 => print "Changing to mode 0: Single color density"
           (set_config 20 false false false true false false w2)
  | 1 => print "Changing to mode 1: Vectors without optical flow"
           (set_config 20 true false false false false false w2)
  | 2 => print "Changing to mode 2: Multi-color user emission"
           (set_config 20 false false true true true false w2)
  | 3 => print "Changing to mode 3: White background"
           (set_config 20 false false false true true true w2)
  | _ => w2
  end.

(** The condition under which [tryChangeMode] changes the mode. *)
Definition autoChangeDue (w : World) : bool :=
  autoChangeMode w && (iterations_per_mode w <? iterations w).

Definition tryChangeMode (w : World) : World :=
  if autoChangeDue w then
    let w1 := set_iterations 0 w in
    let w2 := set_mode (mode w1 + 1) w1 in
    let w3 := if max_mode w2 <? mode w2 then set_mode 0 w2 else w2 in
    changeMode (mode w3) w3
  else
    set_iterations (iterations w + 1) w.

(** ** Multi-user compositor *)

(** The loop [for (int i = 0; i < MAX_USERS; i++)] of [getWeightedColor],
    with the three accumulators as one [RGBType]. *)
Definition getWeightedColor (x y : Z) (w : World) : RGBType :=
  fold_left (fun acc i =>
      let densityVal := Solver.getUserDensityAt i x y (userSolver w) in
      if useWhiteBackground w then
        {| R := (R acc + color_at ColorsWhiteBG i 0 * densityVal)%Q;
           G := (G acc + color_at ColorsWhiteBG i 1 * densityVal)%Q;
           B := (B acc + color_at ColorsWhiteBG i 2 * densityVal)%Q |}
      else
        {| R := (R acc + color_at Colors i 0 * densityVal)%Q;
           G := (G acc + color_at Colors i 1 * densityVal)%Q;
           B := (B acc + color_at Colors i 2 * densityVal)%Q |})
    (zrange 0 (MAX_USERS - 1))
    {| R := 0; G := 0; B := 0 |}.

(** ** Keyboard *)

Definition show_bool (b : bool) : string := if b then "1" else "0".

(** [key_func]; [None] is the exit of the process on the escape key.  The
    keys that drive the sensor's motor and depth and the fullscreen toggle
    act on objects outside [World] and leave it as it is. *)
Definition key_func (key : ascii) (w : World) : option World :=
  if (key =? "c")%char || (key =? "C")%char then Some (clearData w)
  else if (key =? "027")%char then None
  else if (key =? "f")%char || (key =? "F")%char then
    let w1 := set_useFlow (negb (useFlow w)) w in
    Some (print ("Optical Flow: " ++ show_bool (useFlow w1)) w1)
  else if (key =? "v")%char || (key =? "V")%char then
    Some (print "Display Velocity" (set_dvel (negb (dvel w)) w))
  else if (key =? "b")%char || (key =? "B")%char then
    Some (set_dbound (negb (dbound w)) w)
  else if (key =? "1")%char then Some (changeMode 0 w)
  else if (key =? "2")%char then Some (changeMode 1 w)
  else if (key =? "3")%char then Some (changeMode 2 w)
  else if (key =? "4")%char then Some (changeMode 3 w)
  else if (key =? "0")%char then
    let w1 := set_autoChangeMode (negb (autoChangeMode w)) w in
    Some (print ("Auto Change Mode: " ++ show_bool (autoChangeMode w1)) w1)
  else if (key =? "u")%char || (key =? "U")%char then
    let w1 := set_dusers (negb (dusers w)) w in
    Some (print ("Draw Users: " ++ show_bool (dusers w1)) w1)
  else Some w.

(** ** Frames *)

(** [k] frames of the display callback, seen from the mode machine:
    [drawFunction] calls [tryChangeMode] once per frame, and nothing else
    it calls assigns [autoChangeMode], [mode], [max_mode], [iterations] or
    [iterations_per_mode]. *)
Fixpoint ticks (k : nat) (w : World) : World :=
  match k with
  | O => w
  | S k' => tryChangeMode (ticks k' w)
  end.

(** How many of the first [k] frames took the mode-changing branch of
    [tryChangeMode]. *)
Fixpoint autoTransitions (k : nat) (w : World) : nat :=
  match k with
  | O => O
  | S k' =>
      (autoTransitions k' w + if autoChangeDue (ticks k' w) then 1 else 0)%nat
  end.

(** The state [main] reaches before the first frame: [allocateData], then
    [clearData]. *)
Definition startup : World := clearData (allocateData initial_world).

(** ** Vocabulary of the statements *)

(** Cell [(x, y)] is one of the N x N cells inside the border. *)
Definition interior (n x y : Z) : Prop := 1 <= x <= n /\ 1 <= y <= n.

(** The velocities and densities of cell [(x, y)] are the same in two
    solver objects. *)
Definition solver_agree_at (x y : Z) (s s' : FluidSolver) : Prop :=
  horzVelocity s' x y = horzVelocity s x y /\
  vertVelocity s' x y = vertVelocity s x y /\
  density s' x y = density s x y /\
  forall u, userDensity s' u x y = userDensity s u x y.

(** The same, for both solver objects of two worlds. *)
Definition fields_agree_at (x y : Z) (w w' : World) : Prop :=
  solver_agree_at x y (solver w) (solver w') /\
  solver_agree_at x y (userSolver w) (userSolver w').


(** Everything but the boundary flags is the same in two solver objects. *)
Definition velocity_density_same (s s' : FluidSolver) : Prop :=
  horzVelocity s' = horzVelocity s /\
  vertVelocity s' = vertVelocity s /\
  density s' = density s /\
  userDensity s' = userDensity s.

(** The state of the boundary mapper once it has visited the cells of [D],
    started from [w] on image [img]. *)
Definition boundsMapped (fl : SolverPtr) (img : Mat) (w : World)
    (D : Z -> Z -> Prop) (w' : World) : Prop :=
  (forall x y, D x y -> bounds (deref fl w') x y = (0 <? pixel img y x)) /\
  (forall x y, ~ D x y -> bounds (deref fl w') x y = bounds (deref fl w) x y) /\
  velocity_density_same (solver w) (solver w') /\
  velocity_density_same (userSolver w) (userSolver w').


(** The palette that [useWhiteBackground] selects. *)
Definition activePalette (w : World) : list (Q * Q * Q) :=
  if useWhiteBackground w then ColorsWhiteBG else Colors.

(** The compositing rule in the words of the specification: channel [k] of
    the colour of a cell is the sum, over the user slots, of
    [palette[user] * density[user][cell]]. *)
Definition weightedSumSpec (palette : list (Q * Q * Q)) (dens : Z -> Q)
    (k : nat) : Q :=
  fold_right Qplus 0%Q
    (map (fun user => (color_at palette user k * dens user)%Q)
         (zrange 0 (MAX_USERS - 1))).

(** Regions of a sweep over the rectangle [lx..hx] x [ly..hy], row by row:
    the rows before row [v], and these together with the cells of row [v]
    before column [u]. *)
Definition rows_before (lx hx ly v : Z) : Z -> Z -> Prop :=
  fun x y => lx <= x <= hx /\ ly <= y < v.

Definition row_part (lx hx ly v u : Z) : Z -> Z -> Prop :=
  fun x y => rows_before lx hx ly v x y \/ (y = v /\ lx <= x < u).

(** An emitter [k] frames older: [k] times [life_elapsed++]. *)
Definition ageBy (k : nat) (e : Emitter) : Emitter :=
  {| center := center e; vel := vel e; lifespan := lifespan e;
     life_elapsed := life_elapsed e + Z.of_nat k; radius := radius e;
     userNo := userNo e |}.

(** [k] runs of the per-frame pass over the pool. *)
Definition renderFrames (fl : SolverPtr) (k : nat) (w : World) : World :=
  Nat.iter k (renderEmitters fl) w.

(** ** Sample worlds *)

(** A world with automatic cycling on, counter 0 and threshold 500. *)
Definition cyclingWorld : World := set_autoChangeMode true startup.

(** A world in the middle of a cycle: the counter stands at 100. *)
Definition midCycleWorld : World := set_iterations 100 startup.

(** The pool after [k] spawns in a row. *)
Definition spawnMany (k : nat) (w : World) : World :=
  Nat.iter k (createEmitterAt 64 10 1 (-2) 6 3 1) w.


(** One emitter as the splash scan creates them, in the middle of the
    grid, and the first two frames of its life. *)
Definition splashWorld : World := createEmitterAt 64 10 1 (-2) 6 3 1 startup.
Definition splashFrame1 : World := renderEmitters PtrSolver splashWorld.
Definition splashFrame2 : World := renderEmitters PtrSolver splashFrame1.


(** A silhouette whose top edge is at cell (1, 3): the cell is solid and
    the cell above it, (1, 2), is free. *)
Definition wallWorld : World := setBoundAt PtrSolver 1 3 true startup.

(** A flow field with the same slow upward drift, 0.01 per frame,
    everywhere. *)
Definition driftFlow : FlowMat := fun _ _ => {| pt_x := 0; pt_y := - (1 # 100) |}.

(** A 128 x 128 mask with no foreground pixel, and one whose only
    foreground pixel is the first of the first row. *)
Definition emptyMask : Mat := {| rows := 128; cols := 128; pixel := fun _ _ => 0 |}.
Definition cornerMask : Mat :=
  {| rows := 128; cols := 128;
     pixel := fun row col => if (row =? 0) && (col =? 0) then 255 else 0 |}.

(** Cell (128, 128) was made solid before the frame, as the middle mouse
    button does. *)
Definition staleWorld : World := setBoundAt PtrSolver 128 128 true startup.


(** An estimator that reports the motion (1, 1) at every pixel. *)
Definition uniformFlow (prev : Mat) (cur : option Mat) (old : FlowMat) : FlowMat :=
  fun _ _ => {| pt_x := 1; pt_y := 1 |}.

(** Multi-user mode with density 3/4 of user 2 at cell (5, 5) and nothing
    else. *)
Definition userWorld : World :=
  userSolver_addDensityAt 2 5 5 (3 # 4) (changeMode 2 startup).

(** * The rest of fluidWall.cpp *)

From Stdlib Require Import Qround.

(** ** Colour conversion *)

(** [typedef struct {float H, S, V;} HSVType;] the fields carry a prefix,
    [S] being the successor of [nat]. *)
Record HSVType := { hsv_H : Q; hsv_S : Q; hsv_V : Q }.

(** [#define UNDEFINED -1] *)
Definition UNDEFINED : Z := -1.

Definition mkRGB (r g b : Q) : RGBType := {| R := r; G := g; B := b |}.

(** The [switch (i)] that ends [HSV_to_RGB]. *)
Definition hsv_switch (i : Z) (v n m : Q) : option RGBType :=
  match i with
  | 6 | 0 => Some (mkRGB v n m)
  | 1 => Some (mkRGB n v m)
  | 2 => Some (mkRGB m v n)
  | 3 => Some (mkRGB m n v)
  | 4 => Some (mkRGB n m v)
  | 5 => Some (mkRGB v m n)
  | _ => None
  end.

(** [HSV_to_RGB].  The [switch] has the cases 0 to 6 and no default; for
    any other [i] the function runs off its end without a [return], which
    is [None] here. *)
Definition HSV_to_RGB (HSV : HSVType) : option RGBType :=
  let h := hsv_H HSV in
  let s := hsv_S HSV in
  let v := hsv_V HSV in
  if Qeq_bool h (inject_Z UNDEFINED) then Some (mkRGB v v v)
  else
    let i := Qfloor h in
    let f0 := (h - inject_Z i)%Q in
    let f := if Z.land i 1 =? 0 then (1 - f0)%Q else f0 in
    let m := (v * (1 - s))%Q in
    let n := (v * (1 - s * f))%Q in
    hsv_switch i v n m.

(** ** Mouse and window *)

(** The globals of the window: its size, the buttons held down
    ([mouse_down[button]], for the buttons 0, 1 and 2 of GLUT) and the
    current and the previous mouse position. *)
Record Gui := {
  win_x : Z;
  win_y : Z;
  mouse_down : Z -> bool;
  omx : Z;
  omy : Z;
  mx : Z;
  my : Z
}.

(** [x = (int)((mx / (float)win_x) * N + 1);] *)
Definition mouse_cell_x (g : Gui) (n : Z) : Z :=
  float_to_int (inject_Z (mx g) / inject_Z (win_x g) * inject_Z n + 1)%Q.

(** [y = (int)(((win_y - my) / (float)win_y) * N + 1);] *)
Definition mouse_cell_y (g : Gui) (n : Z) : Z :=
  float_to_int
    (inject_Z (win_y g - my g) / inject_Z (win_y g) * inject_Z n + 1)%Q.

(** [omx = mx; omy = my;] *)
Definition remember_mouse (g : Gui) : Gui :=
  {| win_x := win_x g; win_y := win_y g; mouse_down := mouse_down g;
     omx := mx g; omy := my g; mx := mx g; my := my g |}.

Definition getForcesFromMouse (fl : SolverPtr) (g : Gui) (w : World) : Gui * World :=
  let noButtonsPressed :=
    negb (mouse_down g 0) && negb (mouse_down g 2) && negb (mouse_down g 1) in
  if noButtonsPressed then (g, w)
  else
    let x := mouse_cell_x g (N w) in
    let y := mouse_cell_y g (N w) in
    let isMouseOutsideFluidGrid :=
      (x <? 1) || (N w <? x) || (y <? 1) || (N w <? y) in
    if isMouseOutsideFluidGrid then (g, w)
    else
      let w1 :=
        if mouse_down g 0 then
          addVertVelocityAt fl x y (force w * inject_Z (omy g - my g))%Q
            (addHorzVelocityAt fl x y (force w * inject_Z (mx g - omx g))%Q w)
        else w in
      let w2 := if mouse_down g 1 then setBoundAt fl x y true w1 else w1 in
      let w3 :=
        if mouse_down g 2 then
          if useUserSolver w2 then userSolver_addDensityAt 1 x y (source w2) w2
          else addDensityAt fl x y (source w2) w2
        else w2 in
      (remember_mouse g, w3).

(** [mouse_func]: [omx = mx = x; omx = my = y;] then the button's flag;
    [down] is [state == GLUT_DOWN]. *)
Definition mouse_func (button : Z) (down : bool) (x y : Z) (g : Gui) : Gui :=
  {| win_x := win_x g; win_y := win_y g;
     mouse_down := fun b => if b =? button then down else mouse_down g b;
     omx := y; omy := omy g; mx := x; my := y |}.

Definition motion_func (x y : Z) (g : Gui) : Gui :=
  {| win_x := win_x g; win_y := win_y g; mouse_down := mouse_down g;
     omx := omx g; omy := omy g; mx := x; my := y |}.

Definition reshape_func (width height : Z) (g : Gui) : Gui :=
  {| win_x := width; win_y := height; mouse_down := mouse_down g;
     omx := omx g; omy := omy g; mx := mx g; my := my g |}.

(** ** Drawing the density *)

(** What [drawDensity] hands to OpenGL: a vertex is the colour of the
    [glColor3f] and the position of the [glVertex2f] that follows it. *)
Record GLVertex := { gl_color : RGBType; gl_x : Q; gl_y : Q }.

(** The colour of the corner at cell [(i, j)]: the blend of the user
    densities in the multi-user modes, else the conversion of hue 3.25,
    saturation 1 and the density with its background offset, or 0 on a
    boundary cell. *)
Definition cornerColor (fl : SolverPtr) (i j : Z) (w : World) : option RGBType :=
  if useUserSolver w then Some (getWeightedColor i j w)
  else
    let d :=
      if isBoundAt fl i j w then 0%Q
      else (BG_OFFSET + Solver.getDensityAt i j (deref fl w))%Q in
    HSV_to_RGB {| hsv_H := 325 # 100; hsv_S := 1; hsv_V := d |}.

(** The four vertices of the quad of cell [(i, j)]; [None] when a colour
    conversion returns nothing. *)
Definition densityQuad (fl : SolverPtr) (i j : Z) (w : World)
  : option (list GLVertex) :=
  let h := (1 / inject_Z (N w))%Q in
  let x := ((inject_Z i - (1 # 2)) * h)%Q in
  let y := ((inject_Z j - (1 # 2)) * h)%Q in
  match cornerColor fl i j w, cornerColor fl (i + 1) j w,
        cornerColor fl (i + 1) (j + 1) w, cornerColor fl i (j + 1) w with
  | Some rgb00, Some rgb10, Some rgb11, Some rgb01 =>
      Some [ {| gl_color := rgb00; gl_x := x; gl_y := y |};
             {| gl_color := rgb10; gl_x := (x + h)%Q; gl_y := y |};
             {| gl_color := rgb11; gl_x := (x + h)%Q; gl_y := (y + h)%Q |};
             {| gl_color := rgb01; gl_x := x; gl_y := (y + h)%Q |} ]
  | _, _, _, _ => None
  end.

Definition addQuad (fl : SolverPtr) (w : World) (i : Z)
    (acc : option (list GLVertex)) (j : Z) : option (list GLVertex) :=
  match acc, densityQuad fl i j w with
  | Some l, Some q => Some (l ++ q)
  | _, _ => None
  end.

(** [drawDensity]: the vertices between [glBegin (GL_QUADS)] and
    [glEnd ()], in the order of the calls. *)
Definition drawDensity (fl : SolverPtr) (w : World) : option (list GLVertex) :=
  fold_left (fun acc i => fold_left (addQuad fl w i) (zrange 1 (N w)) acc)
    (zrange 1 (N w)) (Some []).

(** ** The frame *)

Definition set_usersMatrixResize (v : Mat) (w : World) : World :=
  {| N := N w; force := force w; source := source w; solver := solver w;
     userSolver := userSolver w; useUserSolver := useUserSolver w;
     useFlow := useFlow w; emitters := emitters w; flow := flow w;
     flowImg := flowImg w; prevFlowImg := prevFlowImg w;
     usersMatrixResize := v; dvel := dvel w;
     dbound := dbound w; dusers := dusers w;
     autoChangeMode := autoChangeMode w;
     useWhiteBackground := useWhiteBackground w; mode := mode w;
     max_mode := max_mode w; iterations := iterations w;
     iterations_per_mode := iterations_per_mode w; stdout := stdout w |}.

(** The program state of a frame: the globals of [World], those of the
    window, and the global [image]. *)
Record App := { world : World; gui : Gui; image : Mat }.

(** What the sensor and OpenCV's [flip] and [resize] deliver to
    [loadImage] in one frame: the depth image at the size of the grid,
    [None] when the frame of the sensor is empty, and the user labels at
    the size of the grid. *)
Record SensorFrame := { depthResized : option Mat; usersResized : Mat }.

(** [loadImage] with its return code.  On an empty frame it reports and
    returns -1 before any global is assigned. *)
Definition loadImage (s : SensorFrame) (a : App) : Z * App :=
  match depthResized s with
  | None =>
      (-1, {| world := print "ERROR: Cannot load frame" (world a);
              gui := gui a; image := image a |})
  | Some frameResize =>
      let w1 := set_flowImg (Some frameResize) (world a) in
      let w2 :=
        if useUserSolver w1 then set_usersMatrixResize (usersResized s) w1
        else w1 in
      (0, {| world := w2; gui := gui a; image := frameResize |})
  end.

Section Frame.

(** OpenCV's flow estimator and the two [update] methods of the solver
    classes, the step of the fluid engine: all three are outside
    [fluidWall.cpp]. *)
Variable calcOpticalFlowFarneback : Mat -> option Mat -> FlowMat -> FlowMat.
Variable solver_update : FluidSolver -> FluidSolver.
Variable userSolver_update : FluidSolver -> FluidSolver.

(** [drawFunction], as far as it writes the program state.  The pointer
    [flSolver] is chosen before [tryChangeMode] runs.  The calls that only
    draw ([pre_display], [drawVelocity], [drawDensity], [drawBounds],
    [drawUsers], [post_display]) read the state and assign none of it; the
    return code of [loadImage] is not looked at. *)
Definition drawFunction (s : SensorFrame) (a : App) : App :=
  let flSolver := if useUserSolver (world a) then PtrUserSolver else PtrSolver in
  let w1 := tryChangeMode (world a) in
  let a2 := snd (loadImage s {| world := w1; gui := gui a; image := image a |}) in
  let w3 := defineBoundsFromImage flSolver (image a2) (world a2) in
  let gw4 := getForcesFromMouse flSolver (gui a2) w3 in
  let w5 :=
    if useFlow (snd gw4) then
      computeOpticalFlow calcOpticalFlowFarneback flSolver (snd gw4)
    else snd gw4 in
  let w6 := emitSplashes flSolver (flow w5) w5 in
  let w7 :=
    if useUserSolver w6 then
      set_userSolver (userSolver_update (userSolver w6)) w6
    else set_solver (solver_update (solver w6)) w6 in
  {| world := w7; gui := fst gw4; image := image a2 |}.

(** The frames of a run, one sensor frame each, with no key or mouse event
    between them. *)
Fixpoint runFrames (ss : list SensorFrame) (a : App) : App :=
  match ss with
  | [] => a
  | s :: rest => runFrames rest (drawFunction s a)
  end.

End Frame.

(** ** Vocabulary of the further statements *)

(** A world with its two solver objects and its pool blanked: two worlds
    with the same [settings] agree on every other global. *)
Definition settings (w : World) : World :=
  set_emitters [] (set_userSolver freshSolver (set_solver freshSolver w)).

(** The seven globals a [case] of [changeMode] assigns. *)
Definition configOf (w : World) : Q * bool * bool * bool * bool * bool * bool :=
  (source w, dvel w, dbound w, dusers w, useFlow w, useUserSolver w,
   useWhiteBackground w).

(** The solver object that is in use: [userSolver] in the multi-user
    modes, [solver] otherwise. *)
Definition activePtr (w : World) : SolverPtr :=
  if useUserSolver w then PtrUserSolver else PtrSolver.

Definition otherPtr (fl : SolverPtr) : SolverPtr :=
  match fl with PtrSolver => PtrUserSolver | PtrUserSolver => PtrSolver end.

(** An emitter outlives [k] passes of [renderEmitters] when its remaining
    life [lifespan - life_elapsed] is not one of 0, ..., k - 1. *)
Definition outlives (k : nat) (e : Emitter) : bool :=
  negb ((0 <=? lifespan e - life_elapsed e) &&
        (lifespan e - life_elapsed e <? Z.of_nat k)).

(** What an injection pass leaves alone, [multi] being [useUserSolver]:
    the settings and the boundary flags always; in single-field mode the
    per-user densities and the density of the solver object not passed; in
    multi-user mode the single-field densities and the per-user densities
    of [solver]. *)
Definition injection_keeps (multi : bool) (fl : SolverPtr) (w w' : World) : Prop :=
  settings w' = settings w /\
  bounds (solver w') = bounds (solver w) /\
  bounds (userSolver w') = bounds (userSolver w) /\
  userDensity (solver w') = userDensity (solver w) /\
  if multi then
    density (solver w') = density (solver w) /\
    density (userSolver w') = density (userSolver w)
  else
    userDensity (userSolver w') = userDensity (userSolver w) /\
    density (deref (otherPtr fl) w') = density (deref (otherPtr fl) w).

(** An emitter as the splash scan creates them on a grid of size [n]:
    lifespan 6, age 0, radius 3, centred at a column 1..n and at a row
    0..NUM_SPLASH_ROWS - 2 (the row above row [j] of the scan); attributed
    to user 1 unless the mode is multi-user. *)
Definition splashBorn (multi : bool) (n : Z) (e : Emitter) : Prop :=
  lifespan e = 6 /\ life_elapsed e = 0 /\ radius e = 3 /\
  (exists i j, 1 <= i <= n /\ 1 <= j <= NUM_SPLASH_ROWS - 1 /\
               center e = {| pt_x := inject_Z i; pt_y := inject_Z (j - 1) |}) /\
  (multi = false -> userNo e = 1).

(** The state of the splash scan: emitters were appended to the pool,
    every one of them [splashBorn], and nothing else was assigned. *)
Definition scanned (w w' : World) : Prop :=
  (exists born,
     emitters w' = emitters w ++ born /\
     Forall (splashBorn (useUserSolver w) (N w)) born) /\
  solver w' = solver w /\
  userSolver w' = userSolver w /\
  settings w' = settings w.

(** What the edge impulses of the mode without optical flow leave alone:
    the pool, the settings, every boundary flag and density, the solver
    object not passed, and the velocities of the cells outside the columns
    1..N+1 and the rows 1..N. *)
Definition impulse_keeps (fl : SolverPtr) (w w' : World) : Prop :=
  emitters w' = emitters w /\
  settings w' = settings w /\
  bounds (deref fl w') = bounds (deref fl w) /\
  density (deref fl w') = density (deref fl w) /\
  userDensity (deref fl w') = userDensity (deref fl w) /\
  deref (otherPtr fl) w' = deref (otherPtr fl) w /\
  forall x y,
    ~ (1 <= x <= N w + 1 /\ 1 <= y <= N w) ->
    horzVelocity (deref fl w') x y = horzVelocity (deref fl w) x y /\
    vertVelocity (deref fl w') x y = vertVelocity (deref fl w) x y.

(** Every field of cell [(x, y)], the boundary flag included, is the same
    in both solver objects of two worlds. *)
Definition cell_untouched (x y : Z) (w w' : World) : Prop :=
  fields_agree_at x y w w' /\
  bounds (solver w') x y = bounds (solver w) x y /\
  bounds (userSolver w') x y = bounds (userSolver w) x y.

(** The globals of the mode machine and of the configuration, and the
    size of the grid. *)
Definition cycleOf (w : World) : bool * Z * Z * Z * Z :=
  (autoChangeMode w, mode w, max_mode w, iterations w, iterations_per_mode w).

Definition frameConstants (w : World)
  : (bool * Z * Z * Z * Z) * (Q * bool * bool * bool * bool * bool * bool) * Z :=
  (cycleOf w, configOf w, N w).

(** The mode machine on its five globals alone: the next value of
    [cycleOf] as [tryChangeMode] computes it. *)
Definition cycleStep (c : bool * Z * Z * Z * Z) : bool * Z * Z * Z * Z :=
  let '(auto, m, mm, it, ipm) := c in
  if auto && (ipm <? it) then
    (auto, (if mm <? m + 1 then 0 else m + 1), mm, 0, ipm)
  else (auto, m, mm, it + 1, ipm).

(** ** Sample inputs for the rest of the code *)

(** The hue and saturation [drawDensity] uses, at value 1/2. *)
Definition sampleHSV : HSVType :=
  {| hsv_H := 325 # 100; hsv_S := 1; hsv_V := 1 # 2 |}.

(** Two 2 x 2 masks. *)
Definition maskA : Mat :=
  {| rows := 2; cols := 2; pixel := fun row col => if row =? col then 255 else 0 |}.
Definition maskB : Mat :=
  {| rows := 2; cols := 2; pixel := fun row col => if row =? 0 then 7 else 0 |}.

(** A first frame: an image is there, no previous one. *)
Definition firstFrameWorld : World := set_flowImg (Some maskA) startup.

(** Mode 2 with a dirty single-field solver: density was added to
    [solver] before the switch to the multi-user mode. *)
Definition leftBehindWorld : World :=
  changeMode 2 (addDensityAt PtrSolver 3 3 1 startup).

(** Mode 1, without optical flow, with a silhouette cell at (128, 5). *)
Definition noFlowWorld : World := setBoundAt PtrSolver 128 5 true (changeMode 1 startup).

(** A 512 x 512 window with the left button held at pixel (100, 200),
    where the mouse also was a frame earlier at (90, 210). *)
Definition dragGui : Gui :=
  {| win_x := 512; win_y := 512;
     mouse_down := fun b => b =? 0;
     omx := 90; omy := 210; mx := 100; my := 200 |}.

(** A sensor that delivers [maskA] and no user, a step of the fluid engine
    that does nothing, and the program at its start with the mouse at
    rest. *)
Definition sampleSensor : SensorFrame :=
  {| depthResized := Some maskA; usersResized := emptyMat |}.

Definition idleGui : Gui :=
  {| win_x := 512; win_y := 512; mouse_down := fun _ => false;
     omx := 0; omy := 0; mx := 0; my := 0 |}.

Definition startApp : App :=
  {| world := startup; gui := idleGui; image := emptyMat |}.

Definition cyclingApp : App :=
  {| world := cyclingWorld; gui := idleGui; image := emptyMat |}.

(** A frame the sensor fails to deliver, and the program in the middle of
    a run with optical flow: [maskA] was the image of the frame before
    and [maskB] is the image of the last frame. *)
Definition droppedSensor : SensorFrame :=
  {| depthResized := None; usersResized := emptyMat |}.

Definition runningApp : App :=
  {| world := swap_flow_images
                (set_flowImg (Some maskB)
                   (swap_flow_images (set_flowImg (Some maskA) startup)));
     gui := idleGui; image := maskB |}.

(** * Properties *)

(** ** Counting loops *)

Lemma zrange_nil (lo hi : Z) : hi < lo -> zrange lo hi = [].
Proof.
  intros H. unfold zrange.
  replace (Z.to_nat (hi - lo + 1)) with O by lia. reflexivity.
Qed.

Lemma zrange_cons (lo hi : Z) :
  lo <= hi -> zrange lo hi = lo :: zrange (lo + 1) hi.
Proof.
  intros H. unfold zrange.
  replace (Z.to_nat (hi - lo + 1)) with (S (Z.to_nat (hi - (lo + 1) + 1)))
    by lia.
  cbn [seq map]. rewrite Z.add_0_r. f_equal.
  rewrite <- seq_shift, map_map. apply map_ext. intros k. lia.
Qed.


Lemma for_range_nil (lo hi : Z) (body : Z -> World -> World) (w : World) :
  hi < lo -> for_range lo hi body w = w.
Proof. intros H. unfold for_range. now rewrite zrange_nil. Qed.

Lemma for_range_cons (lo hi : Z) (body : Z -> World -> World) (w : World) :
  lo <= hi ->
  for_range lo hi body w = for_range (lo + 1) hi body (body lo w).
Proof. intros H. unfold for_range. now rewrite zrange_cons. Qed.

(** The rule of the counting loop: [P v] holds before the iteration with
    index [v], and [P (hi + 1)] when the loop is left. *)
Lemma for_range_ind (P : Z -> World -> Prop) (lo hi : Z)
    (body : Z -> World -> World) (w : World) :
  lo <= hi + 1 ->
  P lo w ->
  (forall v w', lo <= v <= hi -> P v w' -> P (v + 1) (body v w')) ->
  P (hi + 1) (for_range lo hi body w).
Proof.
  intros Hle. remember (Z.to_nat (hi - lo + 1)) as n eqn:Hn.
  revert lo w Hle Hn. induction n as [|n IH]; intros lo w Hle Hn H0 Hstep.
  - rewrite for_range_nil by lia. replace (hi + 1) with lo by lia. exact H0.
  - rewrite for_range_cons by lia. apply IH; try lia.
    + apply Hstep; [lia | exact H0].
    + intros v w' Hv. apply Hstep. lia.
Qed.

(** An invariant that does not mention the index. *)
Lemma for_range_inv (I : World -> Prop) (lo hi : Z)
    (body : Z -> World -> World) (w : World) :
  I w ->
  (forall v w', lo <= v <= hi -> I w' -> I (body v w')) ->
  I (for_range lo hi body w).
Proof.
  intros H0 Hstep. destruct (Z_lt_le_dec hi lo) as [Hlt|Hge].
  - now rewrite for_range_nil.
  - apply (for_range_ind (fun _ => I)); [lia | exact H0 | exact Hstep].
Qed.

(** ** Sweeps over a rectangle of cells *)

Section Sweep.

(** [Inv D w] reads: the cells of [D] have been visited, the others have
    not. *)
Variable Inv : (Z -> Z -> Prop) -> World -> Prop.
Variable body : Z -> Z -> World -> World.
Variables lx hx ly hy : Z.

Hypothesis Inv_ext :
  forall (D D' : Z -> Z -> Prop) w,
    (forall x y, D x y <-> D' x y) -> Inv D w -> Inv D' w.

Hypothesis Inv_step :
  forall (D : Z -> Z -> Prop) x y w,
    lx <= x <= hx -> ly <= y <= hy -> ~ D x y -> Inv D w ->
    Inv (fun x' y' => D x' y' \/ (x' = x /\ y' = y)) (body x y w).

Lemma sweep_row (v : Z) (w : World) :
  ly <= v <= hy ->
  Inv (rows_before lx hx ly v) w ->
  Inv (rows_before lx hx ly (v + 1)) (for_range lx hx (fun x => body x v) w).
Proof.
  intros Hv H0. destruct (Z_lt_le_dec hx lx) as [Hempty|Hne].
  - rewrite for_range_nil by exact Hempty.
    apply (Inv_ext (rows_before lx hx ly v)); [|exact H0].
    unfold rows_before. intros x y. lia.
  - apply (Inv_ext (row_part lx hx ly v (hx + 1))).
    { unfold row_part, rows_before. intros x y. lia. }
    apply (for_range_ind (fun u => Inv (row_part lx hx ly v u))); [lia| |].
    + apply (Inv_ext (rows_before lx hx ly v)); [|exact H0].
      unfold row_part, rows_before. intros x y. lia.
    + intros u w' Hu Hinv.
      apply (Inv_ext (fun x' y' =>
                        row_part lx hx ly v u x' y' \/ (x' = u /\ y' = v))).
      { unfold row_part, rows_before. intros x y. lia. }
      apply Inv_step; [lia | lia | | exact Hinv].
      unfold row_part, rows_before. lia.
Qed.

Lemma sweep_rect (w : World) :
  Inv (fun _ _ => False) w ->
  Inv (fun x y => lx <= x <= hx /\ ly <= y <= hy)
    (for_range ly hy (fun y => for_range lx hx (fun x => body x y)) w).
Proof.
  intros H0. destruct (Z_lt_le_dec hy ly) as [Hempty|Hne].
  - rewrite for_range_nil by exact Hempty.
    apply (Inv_ext (fun _ _ => False)); [|exact H0]. intros x y. lia.
  - apply (Inv_ext (rows_before lx hx ly (hy + 1))).
    { unfold rows_before. intros x y. lia. }
    apply (for_range_ind (fun v => Inv (rows_before lx hx ly v))); [lia| |].
    + apply (Inv_ext (fun _ _ => False)); [|exact H0].
      unfold rows_before. intros x y. lia.
    + intros v w' Hv Hinv. now apply sweep_row.
Qed.

End Sweep.

(** ** Float to int *)

Lemma Qltb_false (a b : Q) : Qltb a b = false -> (b <= a)%Q.
Proof.
  unfold Qltb. intros H. apply negb_false_iff in H.
  now apply Qle_bool_iff.
Qed.

Lemma Qltb_true (a b : Q) : Qltb a b = true -> (a < b)%Q.
Proof.
  unfold Qltb. intros H. apply negb_true_iff in H.
  apply Qnot_le_lt. intros Hle. apply Qle_bool_iff in Hle. congruence.
Qed.








(** ** Cells of the solver *)

Lemma upd_other {A} (f : Z -> Z -> A) (x y x' y' : Z) (v : A) :
  same_cell x y x' y' = false -> upd f x y v x' y' = f x' y'.
Proof. unfold upd. now intros ->. Qed.

Lemma upd_same {A} (f : Z -> Z -> A) (x y : Z) (v : A) :
  upd f x y v x y = v.
Proof. unfold upd, same_cell. now rewrite !Z.eqb_refl. Qed.

Lemma same_cell_false (x y x' y' : Z) :
  x' <> x \/ y' <> y -> same_cell x y x' y' = false.
Proof.
  unfold same_cell. intros [H|H]; apply andb_false_iff; [left|right];
    now apply Z.eqb_neq.
Qed.

Lemma deref_store_same (fl : SolverPtr) (s : FluidSolver) (w : World) :
  deref fl (store fl s w) = s.
Proof. destruct fl; reflexivity. Qed.


Lemma cell_eq_dec (x y x' y' : Z) : {x' = x /\ y' = y} + {x' <> x \/ y' <> y}.
Proof.
  destruct (Z.eq_dec x' x); [destruct (Z.eq_dec y' y)|]; auto.
Qed.

(** ** Mode state machine *)

(** One goal per [case] of the [switch] in [changeMode] and per branch of
    [clearData]. *)
Ltac mode_cases newMode w :=
  unfold changeMode, clearData;
  destruct newMode as [|[[?|?|]|[?|?|]|]|?]; cbn;
  destruct (useUserSolver w).

Lemma changeMode_iterations (newMode : Z) (w : World) :
  iterations (changeMode newMode w) = iterations w.
Proof.
  mode_cases newMode w; reflexivity.
Qed.

Lemma changeMode_emitters (newMode : Z) (w : World) :
  emitters (changeMode newMode w) = [].
Proof.
  mode_cases newMode w; reflexivity.
Qed.

Lemma changeMode_cycle_globals (newMode : Z) (w : World) :
  autoChangeMode (changeMode newMode w) = autoChangeMode w /\
  iterations_per_mode (changeMode newMode w) = iterations_per_mode w /\
  max_mode (changeMode newMode w) = max_mode w /\
  mode (changeMode newMode w) = newMode.
Proof.
  mode_cases newMode w; repeat split.
Qed.

Lemma changeMode_mode (newMode : Z) (w : World) :
  mode (changeMode newMode w) = newMode.
Proof. apply changeMode_cycle_globals. Qed.

Lemma set_iterations_same (w : World) : set_iterations (iterations w) w = w.
Proof. destruct w; reflexivity. Qed.

Lemma set_iterations_twice (a b : Z) (w : World) :
  set_iterations a (set_iterations b w) = set_iterations a w.
Proof. reflexivity. Qed.

(** While the counter has not passed the threshold, a frame only counts. *)
Lemma tryChangeMode_counts (w : World) :
  iterations w <= iterations_per_mode w ->
  tryChangeMode w = set_iterations (iterations w + 1) w.
Proof.
  intros Hle. unfold tryChangeMode, autoChangeDue.
  replace (iterations_per_mode w <? iterations w) with false
    by (symmetry; apply Z.ltb_ge; exact Hle).
  rewrite andb_false_r. reflexivity.
Qed.

Lemma ticks_count (k : nat) (w : World) :
  iterations w + Z.of_nat k <= iterations_per_mode w + 1 ->
  ticks k w = set_iterations (iterations w + Z.of_nat k) w /\
  autoTransitions k w = O.
Proof.
  induction k as [|k IH]; intros Hle.
  - simpl. rewrite Z.add_0_r, set_iterations_same. split; reflexivity.
  - destruct IH as [IHt IHa]; [lia|].
    cbn [ticks autoTransitions]. rewrite IHt, IHa.
    assert (Hit : iterations (set_iterations (iterations w + Z.of_nat k) w)
                  <= iterations_per_mode
                       (set_iterations (iterations w + Z.of_nat k) w))
      by (cbn; lia).
    rewrite (tryChangeMode_counts _ Hit). cbn [iterations set_iterations].
    split.
    + unfold set_iterations; cbn. f_equal. lia.
    + unfold autoChangeDue. cbn.
      replace (iterations_per_mode w <? iterations w + Z.of_nat k) with false
        by (symmetry; apply Z.ltb_ge; lia).
      rewrite andb_false_r. reflexivity.
Qed.

(** Where an automatic change leads: [max_mode] is 0 from its initialiser
    and is never assigned, so from any mode 0..3 the successor is above
    [max_mode] and the change goes to mode 0. *)
Lemma tryChangeMode_selects_mode_0 (w : World) :
  autoChangeDue w = true ->
  max_mode w = 0 ->
  0 <= mode w ->
  mode (tryChangeMode w) = 0.
Proof.
  intros Hdue Hmax Hmode. unfold tryChangeMode. rewrite Hdue. cbv zeta.
  rewrite changeMode_mode. cbn. rewrite Hmax.
  replace (0 <? mode w + 1) with true by (symmetry; apply Z.ltb_lt; lia).
  reflexivity.
Qed.

(** The frame on which the counter is first found past the threshold makes
    the one mode change. *)
Lemma ticks_transition (k : nat) (w : World) :
  autoChangeMode w = true ->
  iterations w + Z.of_nat k = iterations_per_mode w + 1 ->
  autoTransitions (S k) w = 1%nat /\
  iterations (ticks (S k) w) = 0 /\
  emitters (ticks (S k) w) = [].
Proof.
  intros Hauto Hk.
  destruct (ticks_count k w) as [Ht Ha]; [lia|].
  assert (Hdue : autoChangeDue (ticks k w) = true).
  { rewrite Ht. unfold autoChangeDue. cbn. rewrite Hauto. cbn.
    apply Z.ltb_lt. lia. }
  cbn [ticks autoTransitions]. rewrite Ha, Hdue.
  unfold tryChangeMode. rewrite Hdue.
  rewrite changeMode_iterations, changeMode_emitters.
  repeat split.
  destruct (max_mode _ <? mode _); reflexivity.
Qed.




(** C5, as stated, fails.  Key '2' calls [changeMode 1]; with the counter
    at 100 before the key, it is still 100 after it. *)
Lemma key_2_leaves_counter_at_100 :
  iterations midCycleWorld = 100 /\
  option_map iterations (key_func "2" midCycleWorld) = Some 100 /\
  iterations (changeMode 1 midCycleWorld) <> 0.
Proof. vm_compute. repeat split. discriminate. Qed.

(** C5, amended.  A manual mode transition leaves the automatic-cycling
    frame counter as it is, for any counter value and any target mode:
    [changeMode] never assigns [iterations], and neither does any other key
    of [key_func]. *)
Theorem manual_change_keeps_counter (w : World) (newMode : Z) (key : ascii) :
  iterations (changeMode newMode w) = iterations w /\
  match key_func key w with
  | Some w' => iterations w' = iterations w
  | None => True
  end.
Proof.
  split; [apply changeMode_iterations|].
  unfold key_func.
  repeat match goal with
         | |- context [if ?c then _ else _] => destruct c
         end;
    try exact I; try apply changeMode_iterations;
    try reflexivity.
  all: unfold clearData; destruct (useUserSolver w); reflexivity.
Qed.

(** ** Boundary mapper *)

Lemma velocity_density_same_refl (s : FluidSolver) : velocity_density_same s s.
Proof. repeat split. Qed.

(** What the mapper does: the flag of cell [(x, y)] is the test of pixel
    [(y, x)] for [0 <= x < cols] and [0 <= y < rows]; the other flags, and
    every velocity and density, are as before. *)
Lemma defineBoundsFromImage_spec (fl : SolverPtr) (img : Mat) (w : World) :
  boundsMapped fl img w
    (fun x y => 0 <= x <= cols img - 1 /\ 0 <= y <= rows img - 1)
    (defineBoundsFromImage fl img w).
Proof.
  unfold defineBoundsFromImage.
  apply (sweep_rect (boundsMapped fl img w)
           (fun x y w' =>
              if 0 <? pixel img y x then setBoundAt fl x y true w'
              else setBoundAt fl x y false w')).
  - intros D D' w' HD (H1 & H2 & H3 & H4). repeat split; try apply H3; try apply H4.
    + intros x y Hin. apply H1, HD, Hin.
    + intros x y Hout. apply H2. intros Hin. apply Hout, HD, Hin.
  - intros D x y w' _ _ Hfresh (H1 & H2 & H3 & H4).
    assert (Hb : (if 0 <? pixel img y x then setBoundAt fl x y true w'
                  else setBoundAt fl x y false w') =
                 setBoundAt fl x y (0 <? pixel img y x) w')
      by (destruct (0 <? pixel img y x); reflexivity).
    rewrite Hb. unfold setBoundAt.
    repeat split; try (destruct fl; cbn; solve [apply H3 | apply H4]).
    + intros x' y' [Hin | [-> ->]]; rewrite deref_store_same; cbn.
      * rewrite upd_other; [now apply H1|].
        apply same_cell_false.
        destruct (cell_eq_dec x y x' y') as [[-> ->]|Hne];
          [now elim Hfresh | exact Hne].
      * apply upd_same.
    + intros x' y' Hout. rewrite deref_store_same. cbn.
      rewrite upd_other; [apply H2; tauto|].
      apply same_cell_false.
      destruct (cell_eq_dec x y x' y') as [Heq|Hne]; [tauto | exact Hne].
  - repeat split; tauto.
Qed.

(** C1 at the failing input.  The mask has no foreground pixel, and cell
    (128, 128) was solid before: after the mapper it still is, since the
    loops run over the pixel coordinates 0..127 and pass them on unshifted,
    so row 128 and column 128 of the grid are never written.  With the one
    foreground pixel in the first row and column of the mask, the flag is
    set on the border cell (0, 0) and the interior cell (1, 1) stays free. *)
Theorem defineBoundsFromImage_misses_last_row :
  pixel emptyMask 127 127 = 0 /\
  isBoundAt PtrSolver 128 128
    (defineBoundsFromImage PtrSolver emptyMask staleWorld) = true /\
  (0 <? pixel cornerMask 0 0) = true /\
  isBoundAt PtrSolver 1 1
    (defineBoundsFromImage PtrSolver cornerMask startup) = false /\
  isBoundAt PtrSolver 0 0
    (defineBoundsFromImage PtrSolver cornerMask startup) = true.
Proof. vm_compute. repeat split. Qed.

(** ** Flow force translator *)






(** ** Emitter pool *)

Lemma createEmitterAt_length (cx cy : Z) (fu fv : Q) (l r u : Z) (w : World) :
  List.length (emitters (createEmitterAt cx cy fu fv l r u w)) =
  S (List.length (emitters w)).
Proof.
  unfold createEmitterAt. cbn. rewrite length_app. cbn. lia.
Qed.

(** What the scan of [renderEmitters] leaves in the pool: the emitters that
    had not expired, each one frame older, in their order. *)
Lemma renderLoop_pool (fl : SolverPtr) (es : list Emitter) (w : World) :
  fst (renderLoop fl es w) =
  map ageEmitter (filter (fun e => negb (emitterHasExpired e)) es).
Proof.
  revert w. induction es as [|e rest IH]; intros w; [reflexivity|].
  cbn [renderLoop filter]. destruct (emitterHasExpired e); cbn [negb].
  - apply IH.
  - specialize (IH (injectEmitter fl e w)).
    destruct (renderLoop fl rest (injectEmitter fl e w)) as [rest' w2].
    cbn in *. now rewrite IH.
Qed.

Lemma renderEmitters_pool (fl : SolverPtr) (w : World) :
  emitters (renderEmitters fl w) =
  map ageEmitter (filter (fun e => negb (emitterHasExpired e)) (emitters w)).
Proof.
  unfold renderEmitters. rewrite <- (renderLoop_pool fl (emitters w) w).
  destruct (renderLoop fl (emitters w) w) as [es w1]. reflexivity.
Qed.

(** C6, as stated, fails.  Starting from the empty pool that [main] leaves,
    201 spawns give a pool of 201 emitters, above [MAX_EMITTERS]; the
    allocation itself leaves 400 emitters in the pool. *)
Lemma pool_exceeds_MAX_EMITTERS :
  List.length (emitters startup) = 0%nat /\
  Z.of_nat (List.length (emitters (spawnMany 201 startup))) = 201 /\
  MAX_EMITTERS < Z.of_nat (List.length (emitters (spawnMany 201 startup))) /\
  Z.of_nat (List.length (emitters (allocateData initial_world))) = 400.
Proof. vm_compute. repeat split. Qed.

(** C6, amended.  The pool has no capacity check.  Every spawn appends the
    new emitter, so the pool grows by exactly one whatever its size, also at
    or beyond [MAX_EMITTERS]: nothing is rejected and nothing is evicted.
    The advance pass never makes the pool longer. *)
Theorem pool_grows_by_one_per_spawn
    (cx cy : Z) (fu fv : Q) (l r u : Z) (fl : SolverPtr) (w : World) :
  (exists e, emitters (createEmitterAt cx cy fu fv l r u w) = emitters w ++ [e]) /\
  List.length (emitters (createEmitterAt cx cy fu fv l r u w)) =
    S (List.length (emitters w)) /\
  (List.length (emitters (renderEmitters fl w)) <= List.length (emitters w))%nat.
Proof.
  split; [eexists; reflexivity|].
  split; [apply createEmitterAt_length|].
  rewrite renderEmitters_pool, length_map. apply filter_length_le.
Qed.

(** ** Which cells the injection touches *)

Lemma solver_agree_at_refl (x y : Z) (s : FluidSolver) :
  solver_agree_at x y s s.
Proof. repeat split. Qed.


Lemma fields_agree_at_refl (x y : Z) (w : World) : fields_agree_at x y w w.
Proof. split; apply solver_agree_at_refl. Qed.













(** ** Life of an emitter *)

Lemma ageEmitter_ageBy (k : nat) (e : Emitter) :
  ageEmitter (ageBy k e) = ageBy (S k) e.
Proof. unfold ageEmitter, ageBy. cbn [life_elapsed]. f_equal. lia. Qed.

Lemma ageBy_0 (e : Emitter) : ageBy 0 e = e.
Proof. destruct e. unfold ageBy. cbn. f_equal. lia. Qed.


Lemma renderFrames_S (fl : SolverPtr) (k : nat) (w : World) :
  renderFrames fl (S k) w = renderEmitters fl (renderFrames fl k w).
Proof. reflexivity. Qed.


(** On the first frame the integer quotient behind [lifescalar] is 1, on
    every later frame of the lifespan it is 0. *)
Lemma lifescalar_birth (e : Emitter) :
  life_elapsed e = 0 -> lifespan e <> 0 -> lifescalar e = 1%Q.
Proof.
  intros H0 Hl. unfold lifescalar. rewrite H0, Z.sub_0_r.
  now rewrite Z.quot_same.
Qed.

Lemma lifescalar_later (e : Emitter) :
  0 < life_elapsed e <= lifespan e -> lifescalar e = 0%Q.
Proof.
  intros H. unfold lifescalar. rewrite Z.quot_small by lia. reflexivity.
Qed.

Lemma emitterDensity_later (src : Q) (e : Emitter) (x y : Z) :
  0 < life_elapsed e <= lifespan e -> (emitterDensity src e x y == 0)%Q.
Proof.
  intros H. unfold emitterDensity. rewrite (lifescalar_later e H). ring.
Qed.

(** C2 at the failing input.  An emitter as the splash scan creates them
    (lifespan 6, radius 3, centre (64, 10)) with [source] 20.  At cell
    (65, 10), one cell from the centre, its first frame adds
    20 * (1/6) * 1 = 10/3.  The claim has the second frame add
    20 * (1/6) * (5/6) = 25/9; the code adds 0, because
    [(lifespan - life_elapsed) / lifespan] is a quotient of [int]s: 5 / 6
    is 0.  The scalar is 1 on the first frame and 0 on each of the other
    five, so the density injected is neither linear in the age nor strictly
    decreasing, and the last active frame adds exactly 0. *)
Theorem lifescalar_is_integer_quotient :
  map (fun k => lifescalar (ageBy k (hd zeroEmitter (emitters splashWorld))))
      [0; 1; 2; 3; 4; 5]%nat = [1; 0; 0; 0; 0; 0]%Q /\
  (density (solver splashWorld) 65 10 == 0)%Q /\
  (density (solver splashFrame1) 65 10 == 10 # 3)%Q /\
  (density (solver splashFrame2) 65 10 == 10 # 3)%Q /\
  ~ (density (solver splashFrame2) 65 10 ==
     (10 # 3) + 20 * (1 # 6) * (5 # 6))%Q.
Proof.
  split; [reflexivity|].
  repeat split; try (vm_compute; reflexivity).
  vm_compute. discriminate.
Qed.




(** ** Spawning *)

(** At a top edge, in single-field mode, the scan spawns exactly when the
    vertical flow is below 0: that is what comparing with the [int]
    threshold comes to. *)
Lemma velocityEmissionThreshold_is_0 : velocityEmissionThreshold = 0.
Proof. reflexivity. Qed.

Lemma splashCell_spawns_below_0 (fl : SolverPtr) (fm : FlowMat) (i j : Z) (w : World) :
  isBoundAt fl i j w = false ->
  isBoundAt fl i (j + 1) w = true ->
  useUserSolver w = false ->
  ((pt_y (fm i j) < 0)%Q ->
     splashCell fl fm i j w =
     createEmitterAt i (j - 1) ((8 # 10) * pt_x (fm i j))%Q
       ((8 # 10) * pt_y (fm i j))%Q 6 3 1 w) /\
  ((0 <= pt_y (fm i j))%Q -> splashCell fl fm i j w = w).
Proof.
  intros Hfree Hsolid Hsingle. unfold splashCell.
  rewrite Hfree, Hsolid, Hsingle. cbn [negb andb].
  rewrite velocityEmissionThreshold_is_0.
  destruct (Qltb (pt_y (fm i j)) (inject_Z 0)) eqn:Hlt.
  - split; [reflexivity|]. intros Hge. apply Qltb_true in Hlt.
    exfalso. apply (Qlt_not_le _ _ Hlt). exact Hge.
  - split; [|reflexivity]. intros Hneg. apply Qltb_false in Hlt.
    exfalso. apply (Qlt_not_le _ _ Hneg). exact Hlt.
Qed.

(** C3 at the failing input.  The top edge of a silhouette is at column 1
    between rows 2 and 3, and the flow there is (0, -0.01): upward, but
    not more negative than -0.05.  The claim has no emitter spawned; the
    scan spawns one, centred at (1, 1), with lifespan 6, radius 3 and
    velocity 0.8 times the flow, because the threshold is held in an [int]
    and is 0. *)
Theorem splash_spawned_above_threshold :
  (- (5 # 100) < pt_y (driftFlow 1%Z 2%Z))%Q /\
  isBoundAt PtrSolver 1 2 wallWorld = false /\
  isBoundAt PtrSolver 1 3 wallWorld = true /\
  emitters wallWorld = [] /\
  emitters (splashScan PtrSolver driftFlow wallWorld) =
    [ {| center := {| pt_x := 1; pt_y := 1 |};
         vel := {| pt_x := (8 # 10) * 0; pt_y := (8 # 10) * - (1 # 100) |}%Q;
         lifespan := 6; life_elapsed := 0; radius := 3; userNo := 1 |} ] /\
  List.length (emitters (emitSplashes PtrSolver driftFlow wallWorld)) = 1%nat.
Proof.
  split; [reflexivity|]. vm_compute. repeat split.
Qed.

(** ** Multi-user compositor *)

Lemma user_slots : zrange 0 (MAX_USERS - 1) = [0; 1; 2; 3; 4; 5].
Proof. reflexivity. Qed.

Lemma getWeightedColor_sum (x y : Z) (w : World) :
  (R (getWeightedColor x y w) ==
   weightedSumSpec (activePalette w) (fun u => userDensity (userSolver w) u x y) 0)%Q /\
  (G (getWeightedColor x y w) ==
   weightedSumSpec (activePalette w) (fun u => userDensity (userSolver w) u x y) 1)%Q /\
  (B (getWeightedColor x y w) ==
   weightedSumSpec (activePalette w) (fun u => userDensity (userSolver w) u x y) 2)%Q.
Proof.
  unfold getWeightedColor, weightedSumSpec, activePalette.
  rewrite user_slots. unfold Solver.getUserDensityAt.
  destruct (useWhiteBackground w); cbn; repeat split; ring.
Qed.

Lemma weightedSumSpec_single (palette : list (Q * Q * Q)) (dens : Z -> Q)
    (k : nat) (user : Z) :
  0 <= user < MAX_USERS ->
  (forall other, 0 <= other < MAX_USERS -> other <> user ->
     (dens other == 0)%Q) ->
  (weightedSumSpec palette dens k == color_at palette user k * dens user)%Q.
Proof.
  intros Hu Hz. unfold weightedSumSpec. rewrite user_slots. cbn [map fold_right].
  unfold MAX_USERS in *.
  assert (Hcases : user = 0 \/ user = 1 \/ user = 2 \/ user = 3 \/
                   user = 4 \/ user = 5) by lia.
  destruct Hcases as [->|[->|[->|[->|[->| ->]]]]];
    repeat match goal with
           | |- context [dens ?i] =>
               lazymatch goal with
               | H : (dens i == 0)%Q |- _ => fail
               | _ => assert ((dens i == 0)%Q) by (apply Hz; lia)
               end
           end;
    repeat match goal with
           | H : (dens _ == 0)%Q |- _ => rewrite H; clear H
           end;
    ring.
Qed.

(** C9.  For every cell, each channel of the colour that [getWeightedColor]
    returns is the sum over the six user slots of
    [palette[user] * density[user][cell]], the palette being the one that
    [useWhiteBackground] selects; nothing is clamped or rescaled.  When all
    slots but one hold density 0 at the cell, the colour is that slot's
    palette entry times its density. *)
Theorem getWeightedColor_is_weighted_sum (x y : Z) (w : World) :
  ((R (getWeightedColor x y w) ==
    weightedSumSpec (activePalette w)
      (fun u => userDensity (userSolver w) u x y) 0)%Q /\
   (G (getWeightedColor x y w) ==
    weightedSumSpec (activePalette w)
      (fun u => userDensity (userSolver w) u x y) 1)%Q /\
   (B (getWeightedColor x y w) ==
    weightedSumSpec (activePalette w)
      (fun u => userDensity (userSolver w) u x y) 2)%Q) /\
  (forall user,
     0 <= user < MAX_USERS ->
     (forall other, 0 <= other < MAX_USERS -> other <> user ->
        (userDensity (userSolver w) other x y == 0)%Q) ->
     (R (getWeightedColor x y w) ==
      color_at (activePalette w) user 0 * userDensity (userSolver w) user x y)%Q /\
     (G (getWeightedColor x y w) ==
      color_at (activePalette w) user 1 * userDensity (userSolver w) user x y)%Q /\
     (B (getWeightedColor x y w) ==
      color_at (activePalette w) user 2 * userDensity (userSolver w) user x y)%Q).
Proof.
  pose proof (getWeightedColor_sum x y w) as (HR & HG & HB).
  split; [repeat split; assumption|].
  intros user Hu Hz.
  rewrite HR, HG, HB.
  repeat split;
    apply (weightedSumSpec_single (activePalette w)
             (fun u => userDensity (userSolver w) u x y) _ user Hu Hz).
Qed.

Lemma getWeightedColor_is_weighted_sum_witness :
  0 <= 2 < MAX_USERS /\
  (forall other, 0 <= other < MAX_USERS -> other <> 2 ->
     (userDensity (userSolver userWorld) other 5 5 == 0)%Q) /\
  (R (getWeightedColor 5 5 userWorld) ==
   color_at (activePalette userWorld) 2 0 *
   userDensity (userSolver userWorld) 2 5%Z 5%Z)%Q.
Proof.
  assert (Hu : 0 <= 2 < MAX_USERS)
    by (split; [intros H; discriminate H | reflexivity]).
  assert (Hz : forall other, 0 <= other < MAX_USERS -> other <> 2 ->
                 (userDensity (userSolver userWorld) other 5 5 == 0)%Q).
  { intros other _ Hne. cbn.
    destruct (Z.eqb_spec other 2) as [Heq|_]; [now elim Hne | reflexivity]. }
  split; [exact Hu|]. split; [exact Hz|].
  exact (proj1 (proj2 (getWeightedColor_is_weighted_sum 5 5 userWorld)
                  2 Hu Hz)).
Defined.

(** * Properties of the rest of the code *)

(** ** Colour conversion *)

Lemma Qfloor_in_0_6 (h : Q) :
  0 <= Qfloor h <= 6 <-> (0 <= h /\ h < 7)%Q.
Proof.
  pose proof (Qfloor_le h) as Hlo. pose proof (Qlt_floor h) as Hhi.
  split.
  - intros [H0 H6]. split.
    + apply Qle_trans with (inject_Z (Qfloor h)); [|exact Hlo].
      change 0%Q with (inject_Z 0). rewrite <- Zle_Qle. exact H0.
    + apply Qlt_le_trans with (inject_Z (Qfloor h + 1)); [exact Hhi|].
      change 7%Q with (inject_Z 7). rewrite <- Zle_Qle. lia.
  - intros [H0 H7]. split.
    + change 0 with (Qfloor 0). now apply Qfloor_resp_le.
    + assert (Hlt : (inject_Z (Qfloor h) < inject_Z 7)%Q)
        by (eapply Qle_lt_trans; [exact Hlo | exact H7]).
      rewrite <- Zlt_Qlt in Hlt. lia.
Qed.

(** The fraction [f] of [HSV_to_RGB], flipped or not, lies in [0, 1]. *)
Lemma hsv_fraction_range (h : Q) (flip : bool) :
  (0 <= (if flip then 1 - (h - inject_Z (Qfloor h)) else h - inject_Z (Qfloor h))
   /\ (if flip then 1 - (h - inject_Z (Qfloor h)) else h - inject_Z (Qfloor h)) <= 1)%Q.
Proof.
  pose proof (Qfloor_le h) as Hlo. pose proof (Qlt_floor h) as Hhi.
  rewrite inject_Z_plus in Hhi. change (inject_Z 1) with 1%Q in Hhi.
  destruct flip; split; lra.
Qed.

Lemma hsv_n_between (s v f : Q) :
  (0 <= s <= 1)%Q -> (0 <= v)%Q -> (0 <= f <= 1)%Q ->
  (v * (1 - s) <= v * (1 - s * f) /\ v * (1 - s * f) <= v)%Q.
Proof.
  intros [Hs0 Hs1] Hv [Hf0 Hf1].
  assert (Hvs : (0 <= v * s)%Q) by (apply Qmult_le_0_compat; assumption).
  assert (H1 : (0 <= (v * s) * (1 - f))%Q)
    by (apply Qmult_le_0_compat; [assumption | lra]).
  assert (H2 : (0 <= (v * s) * f)%Q)
    by (apply Qmult_le_0_compat; assumption).
  assert (E1 : (v * (1 - s * f) - v * (1 - s) == (v * s) * (1 - f))%Q) by ring.
  assert (E2 : (v - v * (1 - s * f) == (v * s) * f)%Q) by ring.
  split.
  - apply Qle_minus_iff. rewrite <- E1 in H1. lra.
  - apply Qle_minus_iff. rewrite <- E2 in H2. lra.
Qed.

Lemma hsv_switch_none_iff (i : Z) (v n m : Q) :
  hsv_switch i v n m = None <-> ~ 0 <= i <= 6.
Proof.
  unfold hsv_switch.
  destruct i as [|p|p]; [| do 3 (try destruct p as [p|p|]) |];
    split; intros H; try discriminate; try reflexivity; try lia.
Qed.

(** The colour of case [i], for [i] from 0 to 6. *)
Lemma hsv_switch_cases (i : Z) (v n m : Q) :
  0 <= i <= 6 ->
  exists r g b,
    hsv_switch i v n m = Some (mkRGB r g b) /\
    (r = v \/ r = n \/ r = m) /\ (g = v \/ g = n \/ g = m) /\
    (b = v \/ b = n \/ b = m).
Proof.
  intros Hi.
  assert (Hc : i = 0 \/ i = 1 \/ i = 2 \/ i = 3 \/ i = 4 \/ i = 5 \/ i = 6)
    by lia.
  destruct Hc as [->|[->|[->|[->|[->|[->| ->]]]]]]; cbn;
    do 3 eexists; (split; [reflexivity|]); tauto.
Qed.

(** X1.  [HSV_to_RGB] returns no colour exactly when the hue is neither
    [UNDEFINED] nor in the range 0 <= H < 7: those are the hues for which
    the [switch] has no case. *)
Theorem HSV_to_RGB_none_iff (HSV : HSVType) :
  HSV_to_RGB HSV = None <->
  ~ (hsv_H HSV == inject_Z UNDEFINED)%Q /\
  ~ (0 <= hsv_H HSV /\ hsv_H HSV < 7)%Q.
Proof.
  unfold HSV_to_RGB. cbv zeta.
  destruct (Qeq_bool (hsv_H HSV) (inject_Z UNDEFINED)) eqn:Hu.
  - apply Qeq_bool_iff in Hu. split; [discriminate | tauto].
  - assert (Hnu : ~ (hsv_H HSV == inject_Z UNDEFINED)%Q)
      by (intros He; apply Qeq_bool_iff in He; congruence).
    rewrite <- Qfloor_in_0_6, hsv_switch_none_iff. tauto.
Qed.

(** X2.  For a saturation in [0, 1] and a value that is not negative,
    every channel of the colour [HSV_to_RGB] returns lies between
    [V * (1 - S)] and [V]; with [V <= 1] all three channels are in
    [0, 1], as the comment in the function promises. *)
Theorem HSV_to_RGB_channel_range (HSV : HSVType) (c : RGBType) :
  (0 <= hsv_S HSV <= 1)%Q ->
  (0 <= hsv_V HSV)%Q ->
  HSV_to_RGB HSV = Some c ->
  (hsv_V HSV * (1 - hsv_S HSV) <= R c <= hsv_V HSV)%Q /\
  (hsv_V HSV * (1 - hsv_S HSV) <= G c <= hsv_V HSV)%Q /\
  (hsv_V HSV * (1 - hsv_S HSV) <= B c <= hsv_V HSV)%Q /\
  (0 <= hsv_V HSV * (1 - hsv_S HSV))%Q.
Proof.
  intros Hs Hv. unfold HSV_to_RGB. cbv zeta.
  set (h := hsv_H HSV). set (s := hsv_S HSV) in *. set (v := hsv_V HSV) in *.
  set (f := if Z.land (Qfloor h) 1 =? 0
            then (1 - (h - inject_Z (Qfloor h)))%Q
            else (h - inject_Z (Qfloor h))%Q).
  assert (Hf : (0 <= f <= 1)%Q)
    by (unfold f; apply (hsv_fraction_range h (Z.land (Qfloor h) 1 =? 0))).
  destruct (hsv_n_between s v f Hs Hv Hf) as [Hmn Hnv].
  assert (Hm0 : (0 <= v * (1 - s))%Q)
    by (apply Qmult_le_0_compat; [exact Hv | lra]).
  assert (Hmv : (v * (1 - s) <= v)%Q) by lra.
  destruct (Qeq_bool h (inject_Z UNDEFINED)).
  - intros Hc. injection Hc as <-. cbn. repeat split; lra.
  - intros Hc.
    destruct (Z_le_dec 0 (Qfloor h)) as [H0|H0];
      [destruct (Z_le_dec (Qfloor h) 6) as [H6|H6]|].
    + destruct (hsv_switch_cases (Qfloor h) v (v * (1 - s * f))
                  (v * (1 - s)) (conj H0 H6))
        as (r & g & b & Hsw & Hr & Hg & Hb).
      rewrite Hsw in Hc. injection Hc as <-. cbn.
      destruct Hr as [->|[->| ->]], Hg as [->|[->| ->]], Hb as [->|[->| ->]];
        repeat split; lra.
    + exfalso.
      assert (Hn : hsv_switch (Qfloor h) v (v * (1 - s * f)) (v * (1 - s)) = None)
        by (apply hsv_switch_none_iff; lia).
      congruence.
    + exfalso.
      assert (Hn : hsv_switch (Qfloor h) v (v * (1 - s * f)) (v * (1 - s)) = None)
        by (apply hsv_switch_none_iff; lia).
      congruence.
Qed.

Lemma HSV_to_RGB_channel_range_witness :
  (0 <= hsv_S sampleHSV <= 1)%Q /\
  (0 <= hsv_V sampleHSV)%Q /\
  exists c, HSV_to_RGB sampleHSV = Some c /\ (R c <= hsv_V sampleHSV)%Q.
Proof.
  assert (Hs : (0 <= hsv_S sampleHSV <= 1)%Q)
    by (split; intros H; discriminate H).
  assert (Hv : (0 <= hsv_V sampleHSV)%Q) by (intros H; discriminate H).
  split; [exact Hs|]. split; [exact Hv|].
  eexists. split; [reflexivity|].
  exact (proj2 (proj1 (HSV_to_RGB_channel_range sampleHSV _ Hs Hv eq_refl))).
Defined.

(** ** Writes through a solver pointer keep the settings *)

Lemma settings_store (fl : SolverPtr) (s : FluidSolver) (w : World) :
  settings (store fl s w) = settings w /\
  emitters (store fl s w) = emitters w.
Proof. destruct fl; split; reflexivity. Qed.

Lemma settings_set_emitters (es : list Emitter) (w : World) :
  settings (set_emitters es w) = settings w.
Proof. reflexivity. Qed.

(** ** Flow force translator, further *)

Lemma flow_loops_keep_settings (fl : SolverPtr) (n : Z) (w : World) :
  settings
    (for_range 1 n (fun y =>
       for_range 1 n (fun x w' =>
         let fxy := flow w' y x in
         let w'' := addHorzVelocityAt fl x y (FLOW_SCALAR * pt_x fxy)%Q w' in
         addVertVelocityAt fl x y (FLOW_SCALAR * pt_y fxy)%Q w'')) w)
  = settings w /\
  emitters
    (for_range 1 n (fun y =>
       for_range 1 n (fun x w' =>
         let fxy := flow w' y x in
         let w'' := addHorzVelocityAt fl x y (FLOW_SCALAR * pt_x fxy)%Q w' in
         addVertVelocityAt fl x y (FLOW_SCALAR * pt_y fxy)%Q w'')) w)
  = emitters w.
Proof.
  apply (for_range_inv
           (fun w' => settings w' = settings w /\ emitters w' = emitters w));
    [split; reflexivity|].
  intros y w1 _ I1.
  apply (for_range_inv
           (fun w' => settings w' = settings w /\ emitters w' = emitters w));
    [exact I1|].
  intros x w2 _ [Hs He]. cbv zeta.
  unfold addVertVelocityAt, addHorzVelocityAt.
  destruct (settings_store fl
              (Solver.addVertVelocityAt x y (FLOW_SCALAR * pt_y (flow w2 y x))
                 (deref fl (store fl
                    (Solver.addHorzVelocityAt x y
                       (FLOW_SCALAR * pt_x (flow w2 y x)) (deref fl w2)) w2)))
              (store fl
                 (Solver.addHorzVelocityAt x y
                    (FLOW_SCALAR * pt_x (flow w2 y x)) (deref fl w2)) w2))
    as [Hs1 He1].
  destruct (settings_store fl
              (Solver.addHorzVelocityAt x y
                 (FLOW_SCALAR * pt_x (flow w2 y x)) (deref fl w2)) w2)
    as [Hs2 He2].
  split; congruence.
Qed.

(** X3.  The image buffer of the flow translator rolls by one frame.  After
    any call the image that was current is the previous one and the one
    that was previous is the current one, and the pool is as it was.  On a
    first call, with no previous image, the call is this exchange and
    nothing else: no velocity is added and the flow matrix is not
    computed. *)
Theorem computeOpticalFlow_rolls_buffer
    (calc : Mat -> option Mat -> FlowMat -> FlowMat)
    (fl : SolverPtr) (w : World) :
  prevFlowImg (computeOpticalFlow calc fl w) = flowImg w /\
  flowImg (computeOpticalFlow calc fl w) = prevFlowImg w /\
  emitters (computeOpticalFlow calc fl w) = emitters w /\
  (prevFlowImg w = None ->
   solver (computeOpticalFlow calc fl w) = solver w /\
   userSolver (computeOpticalFlow calc fl w) = userSolver w /\
   flow (computeOpticalFlow calc fl w) = flow w).
Proof.
  unfold computeOpticalFlow.
  destruct (prevFlowImg w) as [prev|] eqn:Hprev.
  - destruct (flow_loops_keep_settings fl
                (N (set_flow (calc prev (flowImg w) (flow w)) w) - 1)
                (set_flow (calc prev (flowImg w) (flow w)) w)) as [Hs He].
    cbv zeta in Hs, He. cbv zeta.
    set (w1 := for_range 1 _ _ _) in *.
    repeat split; try discriminate.
    + change (flowImg w1 = flowImg w).
      change (flowImg (settings w1) = flowImg w). now rewrite Hs.
    + change (prevFlowImg w1 = Some prev).
      change (prevFlowImg (settings w1) = Some prev). now rewrite Hs.
    + exact He.
  - repeat split; cbn; auto.
Qed.

Lemma computeOpticalFlow_rolls_buffer_witness :
  prevFlowImg firstFrameWorld = None /\
  solver (computeOpticalFlow uniformFlow PtrSolver firstFrameWorld) =
    solver firstFrameWorld /\
  prevFlowImg (computeOpticalFlow uniformFlow PtrSolver firstFrameWorld) =
    Some maskA.
Proof.
  assert (Hprev : prevFlowImg firstFrameWorld = None) by reflexivity.
  destruct (computeOpticalFlow_rolls_buffer uniformFlow PtrSolver firstFrameWorld)
    as (Hp & _ & _ & Hfirst).
  split; [exact Hprev|]. split; [exact (proj1 (Hfirst Hprev)) | exact Hp].
Defined.

(** ** Boundary mapper, further *)

Lemma defineBoundsFromImage_keeps (fl : SolverPtr) (img : Mat) (w : World) :
  settings (defineBoundsFromImage fl img w) = settings w /\
  emitters (defineBoundsFromImage fl img w) = emitters w /\
  deref (otherPtr fl) (defineBoundsFromImage fl img w) = deref (otherPtr fl) w.
Proof.
  unfold defineBoundsFromImage.
  apply (for_range_inv
           (fun w' => settings w' = settings w /\ emitters w' = emitters w /\
                      deref (otherPtr fl) w' = deref (otherPtr fl) w));
    [repeat split|].
  intros y w1 _ I1.
  apply (for_range_inv
           (fun w' => settings w' = settings w /\ emitters w' = emitters w /\
                      deref (otherPtr fl) w' = deref (otherPtr fl) w));
    [exact I1|].
  intros x w2 _ (Hs & He & Ho). cbv zeta.
  destruct (0 <? pixel img y x); unfold setBoundAt;
    destruct fl; cbn in *; repeat split; assumption.
Qed.

(** X4.  What the boundary mapper writes.  The flag of cell [(x, y)]
    becomes the test [pixel > 0] of the pixel in row [y], column [x] for
    [0 <= x < cols] and [0 <= y < rows]; the flag of every other cell stays.
    The velocities and densities of both solver objects, the flags of the
    solver object not passed, the pool and every other global stay too. *)
Theorem defineBoundsFromImage_effect
    (fl : SolverPtr) (img : Mat) (w : World) (x y : Z) :
  (0 <= x < cols img /\ 0 <= y < rows img ->
   isBoundAt fl x y (defineBoundsFromImage fl img w) = (0 <? pixel img y x)) /\
  (~ (0 <= x < cols img /\ 0 <= y < rows img) ->
   isBoundAt fl x y (defineBoundsFromImage fl img w) = isBoundAt fl x y w) /\
  velocity_density_same (solver w) (solver (defineBoundsFromImage fl img w)) /\
  velocity_density_same (userSolver w)
    (userSolver (defineBoundsFromImage fl img w)) /\
  deref (otherPtr fl) (defineBoundsFromImage fl img w) = deref (otherPtr fl) w /\
  emitters (defineBoundsFromImage fl img w) = emitters w /\
  settings (defineBoundsFromImage fl img w) = settings w.
Proof.
  destruct (defineBoundsFromImage_spec fl img w) as (Hin & Hout & Hv1 & Hv2).
  destruct (defineBoundsFromImage_keeps fl img w) as (Hs & He & Ho).
  unfold isBoundAt, Solver.isBoundAt.
  split; [intros Hr; apply Hin; lia|].
  split; [intros Hr; apply Hout; lia|].
  repeat split; try assumption; try apply Hv1; apply Hv2.
Qed.

Lemma defineBoundsFromImage_effect_witness :
  (0 <= 1 < cols maskA /\ 0 <= 1 < rows maskA) /\
  isBoundAt PtrSolver 1 1 (defineBoundsFromImage PtrSolver maskA startup) =
    (0 <? pixel maskA 1 1) /\
  ~ (0 <= 2 < cols maskA /\ 0 <= 1 < rows maskA) /\
  isBoundAt PtrSolver 2 1 (defineBoundsFromImage PtrSolver maskA startup) =
    isBoundAt PtrSolver 2 1 startup.
Proof.
  assert (Hin : 0 <= 1 < cols maskA /\ 0 <= 1 < rows maskA)
    by (repeat split; try reflexivity; intros H; discriminate H).
  assert (Hout : ~ (0 <= 2 < cols maskA /\ 0 <= 1 < rows maskA))
    by (intros [[_ H] _]; discriminate H).
  split; [exact Hin|].
  split; [exact (proj1 (defineBoundsFromImage_effect PtrSolver maskA startup 1 1) Hin)|].
  split; [exact Hout|].
  exact (proj1 (proj2 (defineBoundsFromImage_effect PtrSolver maskA startup 2 1)) Hout).
Defined.

(** X5.  The mapper overwrites, it does not accumulate.  For two masks of
    the same size, mapping the second after the first leaves the same flags
    as mapping the second alone: nothing of the first mask survives. *)
Theorem defineBoundsFromImage_overwrites
    (fl : SolverPtr) (img1 img2 : Mat) (w : World) (x y : Z) :
  rows img1 = rows img2 ->
  cols img1 = cols img2 ->
  isBoundAt fl x y
    (defineBoundsFromImage fl img2 (defineBoundsFromImage fl img1 w)) =
  isBoundAt fl x y (defineBoundsFromImage fl img2 w).
Proof.
  intros Hr Hc.
  destruct (defineBoundsFromImage_spec fl img2 w) as (Hin & Hout & _).
  destruct (defineBoundsFromImage_spec fl img2 (defineBoundsFromImage fl img1 w))
    as (Hin' & Hout' & _).
  destruct (defineBoundsFromImage_spec fl img1 w) as (_ & Hout1 & _).
  unfold isBoundAt, Solver.isBoundAt.
  destruct (Z_le_dec 0 x), (Z_le_dec x (cols img2 - 1)),
           (Z_le_dec 0 y), (Z_le_dec y (rows img2 - 1));
    try (rewrite Hin', Hin by lia; reflexivity);
    rewrite Hout', Hout, Hout1 by lia; reflexivity.
Qed.

Lemma defineBoundsFromImage_overwrites_witness :
  rows maskA = rows maskB /\
  cols maskA = cols maskB /\
  isBoundAt PtrSolver 1 1
    (defineBoundsFromImage PtrSolver maskB
       (defineBoundsFromImage PtrSolver maskA startup)) =
  isBoundAt PtrSolver 1 1 (defineBoundsFromImage PtrSolver maskB startup).
Proof.
  split; [reflexivity|]. split; [reflexivity|].
  exact (defineBoundsFromImage_overwrites PtrSolver maskA maskB startup 1 1
           eq_refl eq_refl).
Defined.

(** ** Mode state machine, further *)

(** X6.  A mode change resets the solver object that was in use before the
    call and no other: [clearData] runs before the new configuration is
    assigned.  The solver object of the other kind is left as it is, also
    when the new mode is the one that uses it.  The pool is emptied and
    [mode] is the new mode. *)
Theorem changeMode_resets_solver_in_use (newMode : Z) (w : World) :
  deref (activePtr w) (changeMode newMode w) =
    Solver.reset (deref (activePtr w) w) /\
  deref (otherPtr (activePtr w)) (changeMode newMode w) =
    deref (otherPtr (activePtr w)) w /\
  emitters (changeMode newMode w) = [] /\
  mode (changeMode newMode w) = newMode.
Proof.
  unfold activePtr. mode_cases newMode w; repeat split.
Qed.

Lemma configOf_changeMode_valid (newMode : Z) (w w0 : World) :
  0 <= newMode <= 3 ->
  configOf (changeMode newMode w) = configOf (changeMode newMode w0).
Proof.
  intros Hm.
  assert (Hc : newMode = 0 \/ newMode = 1 \/ newMode = 2 \/ newMode = 3) by lia.
  destruct Hc as [->|[->|[->| ->]]]; reflexivity.
Qed.

Lemma changeMode_invalid_eq (newMode : Z) (w : World) :
  ~ 0 <= newMode <= 3 ->
  changeMode newMode w = clearData (set_mode newMode w).
Proof.
  intros Hm. unfold changeMode.
  destruct newMode as [|p|p]; [lia| |reflexivity].
  do 2 (try destruct p as [p|p|]); try lia; reflexivity.
Qed.

Lemma clearData_keeps_config (w : World) :
  configOf (clearData w) = configOf w /\ stdout (clearData w) = stdout w.
Proof. unfold clearData. destruct (useUserSolver w); split; reflexivity. Qed.

Lemma changeMode_invalid (newMode : Z) (w : World) :
  ~ 0 <= newMode <= 3 ->
  configOf (changeMode newMode w) = configOf w /\
  stdout (changeMode newMode w) = stdout w.
Proof.
  intros Hm. rewrite (changeMode_invalid_eq newMode w Hm).
  destruct (clearData_keeps_config (set_mode newMode w)) as [Hc Ho].
  rewrite Hc, Ho. split; reflexivity.
Qed.

(** X7.  The configuration a mode change leaves depends on the target mode
    alone when the target is one of 0..3, so changing to the same mode
    twice gives the configuration of changing once; for any other target
    the seven configuration globals stay as they were and nothing is
    printed. *)
Theorem changeMode_configuration (newMode : Z) (w w0 : World) :
  configOf (changeMode newMode (changeMode newMode w)) =
    configOf (changeMode newMode w) /\
  (0 <= newMode <= 3 ->
   configOf (changeMode newMode w) = configOf (changeMode newMode w0) /\
   List.length (stdout (changeMode newMode w)) = S (List.length (stdout w))) /\
  (~ 0 <= newMode <= 3 ->
   configOf (changeMode newMode w) = configOf w /\
   stdout (changeMode newMode w) = stdout w).
Proof.
  split; [|split].
  - destruct (Z_le_dec 0 newMode) as [H0|H0];
      [destruct (Z_le_dec newMode 3) as [H3|H3]|].
    + apply configOf_changeMode_valid. lia.
    + apply changeMode_invalid. lia.
    + apply changeMode_invalid. lia.
  - intros Hm. split; [now apply configOf_changeMode_valid|].
    assert (Hc : newMode = 0 \/ newMode = 1 \/ newMode = 2 \/ newMode = 3) by lia.
    destruct Hc as [->|[->|[->| ->]]]; unfold changeMode, clearData, print; cbn;
      destruct (useUserSolver w); cbn; rewrite length_app; cbn; lia.
  - apply changeMode_invalid.
Qed.

Lemma changeMode_configuration_witness :
  0 <= 2 <= 3 /\
  configOf (changeMode 2 startup) = configOf (changeMode 2 leftBehindWorld) /\
  ~ 0 <= 7 <= 3 /\
  configOf (changeMode 7 startup) = configOf startup.
Proof.
  assert (Hv : 0 <= 2 <= 3) by (split; intros H; discriminate H).
  assert (Hi : ~ 0 <= 7 <= 3) by (intros [_ H]; exact (H eq_refl)).
  split; [exact Hv|].
  split; [exact (proj1 (proj1 (proj2 (changeMode_configuration 2 startup
                                        leftBehindWorld)) Hv))|].
  split; [exact Hi|].
  exact (proj1 (proj2 (proj2 (changeMode_configuration 7 startup startup)) Hi)).
Defined.

Lemma ticks_add (a b : nat) (w : World) :
  ticks (a + b) w = ticks b (ticks a w) /\
  autoTransitions (a + b) w =
    (autoTransitions a w + autoTransitions b (ticks a w))%nat.
Proof.
  induction b as [|b [IHt IHa]].
  - rewrite Nat.add_0_r. cbn. split; [reflexivity | lia].
  - rewrite Nat.add_succ_r. cbn [ticks autoTransitions].
    rewrite IHt, IHa. split; [reflexivity | lia].
Qed.

Lemma tryChangeMode_keeps_cycle_settings (w : World) :
  autoChangeMode (tryChangeMode w) = autoChangeMode w /\
  iterations_per_mode (tryChangeMode w) = iterations_per_mode w /\
  max_mode (tryChangeMode w) = max_mode w.
Proof.
  unfold tryChangeMode. destruct (autoChangeDue w); [|repeat split].
  cbv zeta.
  match goal with
  | |- context [changeMode ?m ?v] =>
      destruct (changeMode_cycle_globals m v) as (Ha & Hp & Hm & _)
  end.
  rewrite Ha, Hp, Hm.
  destruct (max_mode _ <? mode _); repeat split.
Qed.

(** X8.  With automatic cycling off, a frame only counts: after any number
    of frames the counter has grown by that number, no mode change has
    happened and every other global, the solvers and the pool are as they
    were, however far the counter is past the threshold. *)
Theorem ticks_without_auto_cycling (k : nat) (w : World) :
  autoChangeMode w = false ->
  ticks k w = set_iterations (iterations w + Z.of_nat k) w /\
  autoTransitions k w = 0%nat.
Proof.
  intros Hoff. induction k as [|k [IHt IHa]].
  - cbn. rewrite Z.add_0_r, set_iterations_same. split; reflexivity.
  - cbn [ticks autoTransitions]. rewrite IHt, IHa.
    unfold tryChangeMode, autoChangeDue. cbn. rewrite Hoff. cbn.
    split; [|reflexivity]. unfold set_iterations; cbn. f_equal. lia.
Qed.

Lemma ticks_without_auto_cycling_witness :
  autoChangeMode midCycleWorld = false /\
  ticks 1000 midCycleWorld =
    set_iterations (iterations midCycleWorld + Z.of_nat 1000) midCycleWorld.
Proof.
  split; [reflexivity|].
  exact (proj1 (ticks_without_auto_cycling 1000 midCycleWorld eq_refl)).
Defined.

(** One period of the automatic cycle: from counter 0, the frames that
    count and the frame that changes the mode. *)
Lemma auto_cycle_period (w : World) :
  autoChangeMode w = true ->
  iterations w = 0 ->
  0 <= iterations_per_mode w ->
  autoTransitions (Z.to_nat (iterations_per_mode w + 2)) w = 1%nat /\
  autoChangeMode (ticks (Z.to_nat (iterations_per_mode w + 2)) w) = true /\
  iterations (ticks (Z.to_nat (iterations_per_mode w + 2)) w) = 0 /\
  iterations_per_mode (ticks (Z.to_nat (iterations_per_mode w + 2)) w) =
    iterations_per_mode w /\
  emitters (ticks (Z.to_nat (iterations_per_mode w + 2)) w) = [].
Proof.
  intros Hauto Hit Hper.
  replace (Z.to_nat (iterations_per_mode w + 2))
    with (S (Z.to_nat (iterations_per_mode w + 1))) by lia.
  destruct (ticks_transition (Z.to_nat (iterations_per_mode w + 1)) w Hauto)
    as (Hone & Hzero & Hpool); [lia|].
  destruct (ticks_count (Z.to_nat (iterations_per_mode w + 1)) w) as [Ht _];
    [lia|].
  split; [exact Hone|]. split; [|split; [exact Hzero|split; [|exact Hpool]]].
  - cbn [ticks].
    rewrite (proj1 (tryChangeMode_keeps_cycle_settings _)), Ht. exact Hauto.
  - cbn [ticks].
    rewrite (proj1 (proj2 (tryChangeMode_keeps_cycle_settings _))), Ht.
    reflexivity.
Qed.

(** X9.  The automatic cycle has the period [iterations_per_mode + 2]
    frames: started with the counter at 0, after [n] periods exactly [n]
    mode changes have happened, the counter is back at 0 and the pool is
    empty whenever [n > 0].  With the default threshold of 500 that is one
    change every 502 frames. *)
Theorem auto_cycle_is_periodic (n : nat) (w : World) :
  autoChangeMode w = true ->
  iterations w = 0 ->
  0 <= iterations_per_mode w ->
  autoTransitions (n * Z.to_nat (iterations_per_mode w + 2)) w = n /\
  iterations (ticks (n * Z.to_nat (iterations_per_mode w + 2)) w) = 0 /\
  (0 < n -> emitters (ticks (n * Z.to_nat (iterations_per_mode w + 2)) w) = [])%nat.
Proof.
  intros Hauto Hit Hper.
  set (p := Z.to_nat (iterations_per_mode w + 2)).
  assert (Hall :
    autoTransitions (n * p) w = n /\
    autoChangeMode (ticks (n * p) w) = true /\
    iterations (ticks (n * p) w) = 0 /\
    iterations_per_mode (ticks (n * p) w) = iterations_per_mode w /\
    (0 < n -> emitters (ticks (n * p) w) = [])%nat).
  { induction n as [|n (IHa & IHauto & IHit & IHper & _)].
    - cbn. repeat split; try assumption. intros H. inversion H.
    - replace (S n * p)%nat with (n * p + p)%nat by lia.
      destruct (ticks_add (n * p) p w) as [Ht Ha]. rewrite Ht, Ha, IHa.
      assert (Hper' : 0 <= iterations_per_mode (ticks (n * p) w))
        by (rewrite IHper; exact Hper).
      destruct (auto_cycle_period (ticks (n * p) w) IHauto IHit Hper')
        as (Hone & Hauto' & Hit' & Hp' & Hpool').
      rewrite IHper in *. fold p in Hone, Hauto', Hit', Hp', Hpool'.
      rewrite Hone. repeat split; try assumption;
        [apply Nat.add_1_r | intros _; assumption]. }
  destruct Hall as (Ha & _ & Hi & _ & Hp). repeat split; assumption.
Qed.

Lemma auto_cycle_is_periodic_witness :
  autoChangeMode cyclingWorld = true /\
  iterations cyclingWorld = 0 /\
  0 <= iterations_per_mode cyclingWorld /\
  autoTransitions (3 * Z.to_nat (iterations_per_mode cyclingWorld + 2))
    cyclingWorld = 3%nat.
Proof.
  assert (Hper : 0 <= iterations_per_mode cyclingWorld)
    by (intros H; discriminate H).
  split; [reflexivity|]. split; [reflexivity|]. split; [exact Hper|].
  exact (proj1 (auto_cycle_is_periodic 3 cyclingWorld eq_refl eq_refl Hper)).
Defined.

(** X10.  [max_mode] is 0 from its initialiser and no function assigns it.
    While it is 0, automatic cycling never reaches the modes 1 to 3: after
    any number of frames the mode is the one the run started in if no
    automatic change has happened yet, and mode 0 otherwise. *)
Theorem auto_cycle_stays_in_mode_0 (k : nat) (w : World) :
  max_mode w = 0 ->
  0 <= mode w ->
  max_mode (ticks k w) = 0 /\
  mode (ticks k w) =
    (if (autoTransitions k w =? 0)%nat then mode w else 0).
Proof.
  intros Hmax Hmode.
  assert (Hall : max_mode (ticks k w) = 0 /\ 0 <= mode (ticks k w) /\
                 mode (ticks k w) =
                   (if (autoTransitions k w =? 0)%nat then mode w else 0)).
  { induction k as [|k (IHmax & IHpos & IHmode)].
    - cbn. repeat split; assumption.
    - cbn [ticks autoTransitions].
      destruct (tryChangeMode_keeps_cycle_settings (ticks k w)) as (_ & _ & Hm).
      rewrite Hm, IHmax.
      destruct (autoChangeDue (ticks k w)) eqn:Hdue.
      + rewrite (tryChangeMode_selects_mode_0 (ticks k w) Hdue IHmax IHpos).
        replace (autoTransitions k w + 1 =? 0)%nat with false
          by (symmetry; apply Nat.eqb_neq; lia).
        repeat split; lia.
      + rewrite Nat.add_0_r. unfold tryChangeMode. rewrite Hdue. cbn.
        repeat split; assumption. }
  destruct Hall as (H1 & _ & H3). split; assumption.
Qed.

Lemma auto_cycle_stays_in_mode_0_witness :
  max_mode cyclingWorld = 0 /\
  0 <= mode cyclingWorld /\
  max_mode (ticks 2000 cyclingWorld) = 0.
Proof.
  assert (Hmode : 0 <= mode cyclingWorld) by (intros H; discriminate H).
  split; [reflexivity|]. split; [exact Hmode|].
  exact (proj1 (auto_cycle_stays_in_mode_0 2000 cyclingWorld eq_refl Hmode)).
Defined.

(** ** Emitter pool, further *)

Lemma filter_map_swap {A B} (f : B -> bool) (g : A -> B) (l : list A) :
  filter f (map g l) = map g (filter (fun a => f (g a)) l).
Proof.
  induction l as [|a l IH]; [reflexivity|].
  cbn. destruct (f (g a)); cbn; now rewrite IH.
Qed.

Lemma filter_filter {A} (p q : A -> bool) (l : list A) :
  filter p (filter q l) = filter (fun a => q a && p a) l.
Proof.
  induction l as [|a l IH]; [reflexivity|].
  cbn. destruct (q a); cbn; [destruct (p a)|]; now rewrite IH.
Qed.

Lemma outlives_S (k : nat) (e : Emitter) :
  outlives k e && negb (emitterHasExpired (ageBy k e)) = outlives (S k) e.
Proof.
  unfold outlives, emitterHasExpired. cbn [ageBy lifespan life_elapsed].
  destruct (Z.leb_spec 0 (lifespan e - life_elapsed e));
    destruct (Z.ltb_spec (lifespan e - life_elapsed e) (Z.of_nat k));
    destruct (Z.ltb_spec (lifespan e - life_elapsed e) (Z.of_nat (S k)));
    destruct (Z.eqb_spec (lifespan e - (life_elapsed e + Z.of_nat k)) 0);
    cbn; try reflexivity; lia.
Qed.

Lemma renderFrames_pool_eq (fl : SolverPtr) (k : nat) (w : World) :
  emitters (renderFrames fl k w) =
  map (ageBy k) (filter (outlives k) (emitters w)).
Proof.
  induction k as [|k IH].
  - cbn. rewrite <- (map_id (emitters w)) at 1.
    assert (Hall : filter (outlives 0) (emitters w) = emitters w).
    { apply forallb_filter_id. apply forallb_forall. intros e _.
      unfold outlives. cbn.
      destruct (Z.leb_spec 0 (lifespan e - life_elapsed e));
        destruct (Z.ltb_spec (lifespan e - life_elapsed e) 0);
        cbn; try reflexivity; lia. }
    rewrite Hall. apply map_ext. intros e. symmetry. apply ageBy_0.
  - rewrite renderFrames_S, renderEmitters_pool, IH.
    rewrite filter_map_swap, filter_filter, map_map.
    rewrite (filter_ext _ (outlives (S k))) by (intros e; apply outlives_S).
    apply map_ext. intros e. apply ageEmitter_ageBy.
Qed.



(** X12.  The life of a spawned emitter.  An emitter created with lifespan
    [L >= 0] into an empty pool is in the pool, [k] frames older, after
    each of the first [L] passes, and is gone after pass [L + 1] and every
    later one: it takes part in the injection of exactly [L] passes. *)
Theorem spawned_emitter_lifetime
    (fl : SolverPtr) (cx cy : Z) (fu fv : Q) (L r u : Z) (k : nat) (w : World) :
  emitters w = [] ->
  0 <= L ->
  emitters (renderFrames fl k (createEmitterAt cx cy fu fv L r u w)) =
    if Z.of_nat k <=? L then
      [ {| center := {| pt_x := inject_Z cx; pt_y := inject_Z cy |};
           vel := {| pt_x := fu; pt_y := fv |};
           lifespan := L; life_elapsed := 0 + Z.of_nat k;
           radius := r; userNo := u |} ]
    else [].
Proof.
  intros Hempty HL. rewrite renderFrames_pool_eq.
  unfold createEmitterAt. cbn [emitters set_emitters]. rewrite Hempty.
  cbn [app filter]. unfold outlives. cbn [lifespan life_elapsed].
  rewrite Z.sub_0_r.
  destruct (Z.leb_spec 0 L); [|lia].
  destruct (Z.ltb_spec L (Z.of_nat k)); destruct (Z.leb_spec (Z.of_nat k) L);
    try lia; reflexivity.
Qed.

Lemma spawned_emitter_lifetime_witness :
  emitters startup = [] /\
  0 <= 6 /\
  emitters (renderFrames PtrSolver 7 (createEmitterAt 64 10 1 (-2) 6 3 1 startup))
    = [].
Proof.
  assert (HL : 0 <= 6) by (intros H; discriminate H).
  split; [reflexivity|]. split; [exact HL|].
  exact (spawned_emitter_lifetime PtrSolver 64 10 1 (-2) 6 3 1 7 startup
           eq_refl HL).
Defined.

Lemma renderLoop_all_expired (fl : SolverPtr) (es : list Emitter) (w : World) :
  forallb emitterHasExpired es = true -> renderLoop fl es w = ([], w).
Proof.
  induction es as [|e rest IH]; [reflexivity|].
  cbn [forallb renderLoop]. intros H. apply andb_true_iff in H.
  destruct H as [He Hrest]. rewrite He. now apply IH.
Qed.

(** X13.  A pass over a pool in which every emitter has expired, the empty
    pool among them, empties the pool and touches nothing else: no cell of
    either solver object is written.  The 200 value-initialised emitters
    the global vector is constructed with are such a pool. *)
Theorem renderEmitters_expired_pool (fl : SolverPtr) (w : World) :
  forallb emitterHasExpired (emitters w) = true ->
  renderEmitters fl w = set_emitters [] w.
Proof.
  intros H. unfold renderEmitters.
  now rewrite (renderLoop_all_expired fl (emitters w) w H).
Qed.

Lemma renderEmitters_expired_pool_witness :
  forallb emitterHasExpired (emitters initial_world) = true /\
  renderEmitters PtrSolver initial_world = set_emitters [] initial_world.
Proof.
  split; [reflexivity|].
  exact (renderEmitters_expired_pool PtrSolver initial_world eq_refl).
Defined.

(** ** What the injection leaves alone *)

Lemma settings_useUserSolver (w w' : World) :
  settings w' = settings w -> useUserSolver w' = useUserSolver w.
Proof.
  intros H. change (useUserSolver (settings w') = useUserSolver (settings w)).
  now rewrite H.
Qed.

Lemma injection_keeps_refl (multi : bool) (fl : SolverPtr) (w : World) :
  injection_keeps multi fl w w.
Proof. unfold injection_keeps. destruct multi; repeat split. Qed.

Lemma injection_keeps_trans (multi : bool) (fl : SolverPtr) (w1 w2 w3 : World) :
  injection_keeps multi fl w1 w2 -> injection_keeps multi fl w2 w3 ->
  injection_keeps multi fl w1 w3.
Proof.
  unfold injection_keeps.
  destruct multi;
    intros (A1 & A2 & A3 & A4 & A5 & A6) (B1 & B2 & B3 & B4 & B5 & B6);
    repeat split; congruence.
Qed.

Lemma injectCell_keeps (fl : SolverPtr) (e : Emitter) (x y : Z) (w : World) :
  injection_keeps (useUserSolver w) fl w (injectCell fl e x y w).
Proof.
  unfold injectCell, injection_keeps. cbv zeta.
  assert (Hu : forall hv vv,
            useUserSolver
              (addVertVelocityAt fl x y vv (addHorzVelocityAt fl x y hv w)) =
            useUserSolver w) by (intros; destruct fl; reflexivity).
  rewrite Hu.
  destruct (useUserSolver w); destruct fl; repeat split.
Qed.

Lemma injectEmitter_keeps (fl : SolverPtr) (e : Emitter) (w : World) :
  injection_keeps (useUserSolver w) fl w (injectEmitter fl e w).
Proof.
  unfold injectEmitter.
  apply (for_range_inv (injection_keeps (useUserSolver w) fl w));
    [apply injection_keeps_refl|].
  intros y w1 _ I1.
  apply (for_range_inv (injection_keeps (useUserSolver w) fl w));
    [exact I1|].
  intros x w2 _ I2.
  eapply injection_keeps_trans; [exact I2|].
  rewrite <- (settings_useUserSolver w w2 (proj1 I2)).
  apply injectCell_keeps.
Qed.

Lemma renderLoop_keeps (fl : SolverPtr) (es : list Emitter) (w : World) :
  injection_keeps (useUserSolver w) fl w (snd (renderLoop fl es w)).
Proof.
  revert w. induction es as [|e rest IH]; intros w;
    [apply injection_keeps_refl|].
  cbn [renderLoop]. destruct (emitterHasExpired e); [apply IH|].
  pose proof (injectEmitter_keeps fl e w) as H1.
  specialize (IH (injectEmitter fl e w)).
  rewrite (settings_useUserSolver w _ (proj1 H1)) in IH.
  destruct (renderLoop fl rest (injectEmitter fl e w)) as [rest' w2].
  cbn in *. eapply injection_keeps_trans; eassumption.
Qed.

Lemma renderEmitters_settings (fl : SolverPtr) (w : World) :
  settings (renderEmitters fl w) = settings w.
Proof.
  unfold renderEmitters.
  pose proof (renderLoop_keeps fl (emitters w) w) as H.
  destruct (renderLoop fl (emitters w) w) as [es w1]. cbn in H.
  apply H.
Qed.

(** X14.  The per-frame pass over the pool never writes a boundary flag and
    never assigns a global other than the pool and the solver fields.  In
    single-field mode it leaves every per-user density and the density of
    the solver object not passed as they were; in multi-user mode it leaves
    the single-field density of both solver objects and the per-user
    densities of [solver] as they were: the density goes to one place per
    mode. *)
Theorem renderEmitters_keeps (fl : SolverPtr) (w : World) :
  injection_keeps (useUserSolver w) fl w (renderEmitters fl w).
Proof.
  unfold renderEmitters.
  pose proof (renderLoop_keeps fl (emitters w) w) as H.
  destruct (renderLoop fl (emitters w) w) as [es w1]. cbn in H.
  unfold injection_keeps in *.
  destruct H as (H1 & H2 & H3 & H4 & H5).
  repeat split; assumption.
Qed.

(** ** Splash scan, further *)

Lemma settings_N (w w' : World) : settings w' = settings w -> N w' = N w.
Proof.
  intros H. change (N (settings w') = N (settings w)). now rewrite H.
Qed.

Lemma scanned_refl (w : World) : scanned w w.
Proof.
  repeat split. exists []. split; [now rewrite app_nil_r | constructor].
Qed.

Lemma createEmitterAt_scanned
    (cx cy : Z) (fu fv : Q) (l r u : Z) (w w1 : World) :
  scanned w w1 ->
  splashBorn (useUserSolver w) (N w)
    {| center := {| pt_x := inject_Z cx; pt_y := inject_Z cy |};
       vel := {| pt_x := fu; pt_y := fv |};
       lifespan := l; life_elapsed := 0; radius := r; userNo := u |} ->
  scanned w (createEmitterAt cx cy fu fv l r u w1).
Proof.
  intros ((born & Hpool & Hborn) & Hs & Hu & Hset) Hnew.
  unfold createEmitterAt. split; [|repeat split; assumption].
  eexists. split.
  - cbn [emitters set_emitters]. rewrite Hpool, <- app_assoc. reflexivity.
  - apply Forall_app. split; [exact Hborn|]. constructor; [exact Hnew|constructor].
Qed.

Lemma splashCell_scanned (fl : SolverPtr) (fm : FlowMat) (i j : Z) (w w1 : World) :
  1 <= i <= N w ->
  1 <= j <= NUM_SPLASH_ROWS - 1 ->
  scanned w w1 ->
  scanned w (splashCell fl fm i j w1).
Proof.
  intros Hi Hj Hsc.
  assert (Hmulti : useUserSolver w1 = useUserSolver w)
    by (apply settings_useUserSolver, Hsc).
  unfold splashCell. cbv zeta.
  destruct (negb (isBoundAt fl i j w1) && isBoundAt fl i (j + 1) w1);
    [|exact Hsc].
  destruct (Qltb _ _); [|exact Hsc].
  destruct (useUserSolver w1) eqn:Hm; apply createEmitterAt_scanned;
    try exact Hsc; unfold splashBorn; cbn [lifespan life_elapsed radius center userNo];
    (split; [reflexivity|]); (split; [reflexivity|]); (split; [reflexivity|]);
    (split; [exists i, j; repeat split; lia|]);
    intros Hsingle; [congruence | reflexivity].
Qed.

(** The scan writes no solver object and keeps the settings. *)
Lemma splashScan_keeps_solvers (fl : SolverPtr) (fm : FlowMat) (w : World) :
  solver (splashScan fl fm w) = solver w /\
  userSolver (splashScan fl fm w) = userSolver w /\
  settings (splashScan fl fm w) = settings w.
Proof.
  unfold splashScan.
  apply (for_range_inv (scanned w)); [apply scanned_refl|].
  intros j w1 Hj I1.
  apply (for_range_inv (scanned w)); [exact I1|].
  intros i w2 Hi I2. now apply splashCell_scanned.
Qed.

(** X15.  The scan of the splash rows only appends to the pool: the
    emitters that were there stay, in place and unchanged, no cell of either
    solver object is written and no other global is assigned.  Every
    emitter it appends has lifespan 6, age 0 and radius 3, so a degenerate
    emitter is never created; its centre is at a column 1..N and at a row
    0..78, the border row 0 included; in single-field mode it is attributed
    to user 1. *)
Theorem splashScan_appends (fl : SolverPtr) (fm : FlowMat) (w : World) :
  scanned w (splashScan fl fm w).
Proof.
  unfold splashScan.
  apply (for_range_inv (scanned w)); [apply scanned_refl|].
  intros j w1 Hj I1.
  apply (for_range_inv (scanned w)); [exact I1|].
  intros i w2 Hi I2. now apply splashCell_scanned.
Qed.

(** ** Edge impulses *)

Lemma impulse_keeps_refl (fl : SolverPtr) (w : World) : impulse_keeps fl w w.
Proof. repeat split. Qed.

Lemma edgeImpulseCell_keeps (fl : SolverPtr) (i j : Z) (w w1 : World) :
  1 <= i <= N w ->
  1 <= j <= N w ->
  impulse_keeps fl w w1 ->
  impulse_keeps fl w (edgeImpulseCell fl i j w1).
Proof.
  intros Hi Hj (He & Hs & Hb & Hd & Hud & Ho & Hv).
  unfold edgeImpulseCell, impulse_keeps. cbv zeta.
  destruct (negb (isBoundAt fl i j w1) && isBoundAt fl (i + 1) j w1);
    [|destruct (isBoundAt fl i j w1 && negb (isBoundAt fl (i + 1) j w1));
      [|repeat split; solve [assumption | now apply Hv]]];
    unfold addVertVelocityAt, addHorzVelocityAt;
    rewrite !deref_store_same;
    (split; [destruct fl; exact He|]);
    (split; [destruct fl; exact Hs|]);
    (split; [exact Hb|]); (split; [exact Hd|]); (split; [exact Hud|]);
    (split; [destruct fl; exact Ho|]);
    intros x y Hout; cbn;
    rewrite !upd_other by (apply same_cell_false; lia);
    now apply Hv.
Qed.

(** The edge impulses keep the settings and the solver object not
    passed. *)
Lemma edge_impulses_frame (fl : SolverPtr) (fm : FlowMat) (w : World) :
  useFlow w = false ->
  settings (emitSplashes fl fm w) = settings w /\
  deref (otherPtr fl) (emitSplashes fl fm w) = deref (otherPtr fl) w.
Proof.
  intros Hoff. unfold emitSplashes. rewrite Hoff.
  assert (H : impulse_keeps fl w
                (for_range 1 (N w) (fun j =>
                   for_range 1 (N w) (fun i => edgeImpulseCell fl i j)) w)).
  { apply (for_range_inv (impulse_keeps fl w)); [apply impulse_keeps_refl|].
    intros j w1 Hj I1.
    apply (for_range_inv (impulse_keeps fl w)); [exact I1|].
    intros i w2 Hi I2. now apply edgeImpulseCell_keeps. }
  split; apply H.
Qed.

(** X16.  In the mode without optical flow, [emitSplashes] only adds
    velocity, and only in the columns 1..N+1 of the rows 1..N: the pool,
    every boundary flag, every density, the solver object not passed and
    every other global are as they were, and so are the velocities of all
    cells outside that range.  The border column N + 1 is inside it. *)
Theorem emitSplashes_without_flow (fl : SolverPtr) (fm : FlowMat) (w : World) :
  useFlow w = false ->
  impulse_keeps fl w (emitSplashes fl fm w).
Proof.
  intros Hoff. unfold emitSplashes. rewrite Hoff.
  apply (for_range_inv (impulse_keeps fl w)); [apply impulse_keeps_refl|].
  intros j w1 Hj I1.
  apply (for_range_inv (impulse_keeps fl w)); [exact I1|].
  intros i w2 Hi I2. now apply edgeImpulseCell_keeps.
Qed.

Lemma emitSplashes_without_flow_witness :
  useFlow noFlowWorld = false /\
  impulse_keeps PtrSolver noFlowWorld
    (emitSplashes PtrSolver driftFlow noFlowWorld) /\
  ~ (horzVelocity (solver (emitSplashes PtrSolver driftFlow noFlowWorld)) 129 5
     == 0)%Q.
Proof.
  split; [reflexivity|].
  split; [exact (emitSplashes_without_flow PtrSolver driftFlow noFlowWorld eq_refl)|].
  vm_compute. discriminate.
Defined.

(** ** Mouse *)






Lemma cell_untouched_refl (x y : Z) (w : World) : cell_untouched x y w w.
Proof. split; [apply fields_agree_at_refl | split; reflexivity]. Qed.

Lemma mouse_inside_interior (g : Gui) (w : World) :
  (mouse_cell_x g (N w) <? 1) || (N w <? mouse_cell_x g (N w)) ||
  (mouse_cell_y g (N w) <? 1) || (N w <? mouse_cell_y g (N w)) = false ->
  interior (N w) (mouse_cell_x g (N w)) (mouse_cell_y g (N w)).
Proof.
  intros H. apply orb_false_iff in H. destruct H as [H Hy2].
  apply orb_false_iff in H. destruct H as [H Hy1].
  apply orb_false_iff in H. destruct H as [Hx1 Hx2].
  apply Z.ltb_ge in Hx1, Hx2, Hy1, Hy2. unfold interior. lia.
Qed.

(** X18.  [getForcesFromMouse] writes at most one cell, the cell under the
    mouse, and only when that cell is inside the grid: every other cell of
    both solver objects keeps its velocities, densities and boundary flag,
    and the pool and the other globals of the simulation stay.  With no
    button held the call changes nothing at all. *)
Theorem getForcesFromMouse_one_cell (fl : SolverPtr) (g : Gui) (w : World) :
  emitters (snd (getForcesFromMouse fl g w)) = emitters w /\
  settings (snd (getForcesFromMouse fl g w)) = settings w /\
  (forall x y,
     ~ (x = mouse_cell_x g (N w) /\ y = mouse_cell_y g (N w) /\
        interior (N w) x y) ->
     cell_untouched x y w (snd (getForcesFromMouse fl g w))) /\
  (mouse_down g 0 = false -> mouse_down g 1 = false ->
   mouse_down g 2 = false ->
   getForcesFromMouse fl g w = (g, w)).
Proof.
  unfold getForcesFromMouse. cbv zeta.
  destruct (negb (mouse_down g 0) && negb (mouse_down g 2) &&
            negb (mouse_down g 1)) eqn:Hnone.
  { cbn [snd]. repeat split; intros; apply cell_untouched_refl. }
  destruct ((mouse_cell_x g (N w) <? 1) || (N w <? mouse_cell_x g (N w)) ||
            (mouse_cell_y g (N w) <? 1) || (N w <? mouse_cell_y g (N w)))
    eqn:Hout.
  { cbn [snd]. split; [reflexivity|]. split; [reflexivity|].
    split; [intros; apply cell_untouched_refl|].
    intros H0 H1 H2. rewrite H0, H1, H2 in Hnone. discriminate Hnone. }
  pose proof (mouse_inside_interior g w Hout) as Hint.
  cbn [snd].
  split; [|split; [|split]].
  - destruct (mouse_down g 0), (mouse_down g 1), (mouse_down g 2), fl;
      cbn; try destruct (useUserSolver w); reflexivity.
  - destruct (mouse_down g 0), (mouse_down g 1), (mouse_down g 2), fl;
      cbn; try destruct (useUserSolver w); reflexivity.
  - intros x y Hother.
    assert (Hne : same_cell (mouse_cell_x g (N w)) (mouse_cell_y g (N w)) x y
                  = false).
    { apply same_cell_false.
      destruct (cell_eq_dec (mouse_cell_x g (N w)) (mouse_cell_y g (N w)) x y)
        as [[Hx Hy]|Hne]; [|exact Hne].
      exfalso. apply Hother. subst. tauto. }
    unfold cell_untouched, fields_agree_at, solver_agree_at.
    destruct (mouse_down g 0), (mouse_down g 1), (mouse_down g 2), fl;
      cbn; try destruct (useUserSolver w); cbn;
      rewrite ?(upd_other _ _ _ _ _ _ Hne); repeat split;
      intros u; destruct (Z.eqb_spec u 1) as [->|Hu]; cbn;
      rewrite ?(upd_other _ _ _ _ _ _ Hne); reflexivity.
  - intros H0 H1 H2. rewrite H0, H1, H2 in Hnone. discriminate Hnone.
Qed.

Lemma getForcesFromMouse_one_cell_witness :
  ~ (5 = mouse_cell_x dragGui (N startup) /\
     5 = mouse_cell_y dragGui (N startup) /\ interior (N startup) 5 5) /\
  cell_untouched 5 5 startup (snd (getForcesFromMouse PtrSolver dragGui startup)).
Proof.
  assert (Hother : ~ (5 = mouse_cell_x dragGui (N startup) /\
                      5 = mouse_cell_y dragGui (N startup) /\
                      interior (N startup) 5 5))
    by (intros [H _]; discriminate H).
  split; [exact Hother|].
  exact (proj1 (proj2 (proj2 (getForcesFromMouse_one_cell PtrSolver dragGui
                                startup))) 5 5 Hother).
Defined.

Lemma getForcesFromMouse_returns (fl : SolverPtr) (g : Gui) (w : World) :
  getForcesFromMouse fl g w = (g, w) \/
  fst (getForcesFromMouse fl g w) = remember_mouse g.
Proof.
  unfold getForcesFromMouse. cbv zeta.
  destruct (negb (mouse_down g 0) && negb (mouse_down g 2) &&
            negb (mouse_down g 1)); [now left|].
  destruct ((mouse_cell_x g (N w) <? 1) || (N w <? mouse_cell_x g (N w)) ||
            (mouse_cell_y g (N w) <? 1) || (N w <? mouse_cell_y g (N w)));
    [now left | now right].
Qed.

(** With the previous position equal to the current one, a call adds
    [force * 0] at most: no velocity changes. *)
Lemma getForcesFromMouse_at_rest (fl : SolverPtr) (g : Gui) (w : World) (x y : Z) :
  omx g = mx g ->
  omy g = my g ->
  (horzVelocity (deref fl (snd (getForcesFromMouse fl g w))) x y ==
   horzVelocity (deref fl w) x y)%Q /\
  (vertVelocity (deref fl (snd (getForcesFromMouse fl g w))) x y ==
   vertVelocity (deref fl w) x y)%Q.
Proof.
  intros Hx Hy. unfold getForcesFromMouse. cbv zeta.
  rewrite Hx, Hy, !Z.sub_diag.
  destruct (negb (mouse_down g 0) && negb (mouse_down g 2) &&
            negb (mouse_down g 1)); [split; reflexivity|].
  destruct ((mouse_cell_x g (N w) <? 1) || (N w <? mouse_cell_x g (N w)) ||
            (mouse_cell_y g (N w) <? 1) || (N w <? mouse_cell_y g (N w)));
    [split; reflexivity|].
  cbn [snd].
  destruct (mouse_down g 0), (mouse_down g 1), (mouse_down g 2), fl;
    cbn; try destruct (useUserSolver w); cbn; unfold upd;
    try destruct (same_cell (mouse_cell_x g (N w)) (mouse_cell_y g (N w)) x y)
      eqn:Hc;
    try (split; reflexivity);
    unfold same_cell in Hc; apply andb_true_iff in Hc; destruct Hc as [Hc1 Hc2];
    apply Z.eqb_eq in Hc1, Hc2; subst x y;
    change (inject_Z 0) with 0%Q; split; ring.
Qed.

(** X19.  A held button adds velocity only while the mouse moves.  Of two
    calls in a row with no mouse event between them, the second changes no
    velocity of the solver object passed: either the first call returned
    early and the second does the same, or the first call recorded the
    position and the second finds a displacement of 0. *)
Theorem getForcesFromMouse_second_call (fl : SolverPtr) (g : Gui) (w : World)
    (x y : Z) :
  (horzVelocity
     (deref fl
        (snd (getForcesFromMouse fl (fst (getForcesFromMouse fl g w))
                (snd (getForcesFromMouse fl g w))))) x y ==
   horzVelocity (deref fl (snd (getForcesFromMouse fl g w))) x y)%Q /\
  (vertVelocity
     (deref fl
        (snd (getForcesFromMouse fl (fst (getForcesFromMouse fl g w))
                (snd (getForcesFromMouse fl g w))))) x y ==
   vertVelocity (deref fl (snd (getForcesFromMouse fl g w))) x y)%Q.
Proof.
  destruct (getForcesFromMouse_returns fl g w) as [Hearly|Hpass].
  - rewrite Hearly. cbn [fst snd]. rewrite Hearly. split; reflexivity.
  - rewrite Hpass. apply getForcesFromMouse_at_rest; reflexivity.
Qed.

(** ** Keyboard, further *)

(** X20.  The escape key is the only key that ends the process.  Every
    other key returns, and unless it is the clear key or one of the mode
    keys 1 to 4 it writes no solver object and leaves the pool alone. *)
Theorem key_func_exit_and_reach (key : ascii) (w : World) :
  (key_func key w = None <-> key = "027"%char) /\
  (forall w',
     key_func key w = Some w' ->
     key <> "c"%char -> key <> "C"%char ->
     key <> "1"%char -> key <> "2"%char ->
     key <> "3"%char -> key <> "4"%char ->
     solver w' = solver w /\ userSolver w' = userSolver w /\
     emitters w' = emitters w).
Proof.
  unfold key_func. split.
  - split.
    + repeat match goal with
             | |- context [if ?c then _ else _] =>
                 let E := fresh "E" in destruct c eqn:E
             end; try discriminate.
      intros _. now apply Ascii.eqb_eq.
    + intros ->. reflexivity.
  - intros w' Hk Hc HC H1 H2 H3 H4.
    apply Ascii.eqb_neq in Hc, HC, H1, H2, H3, H4.
    rewrite Hc, HC, H1, H2, H3, H4 in Hk. cbn [orb] in Hk.
    repeat match type of Hk with
           | context [if ?c then _ else _] => destruct c
           end;
      try discriminate; injection Hk as <-; repeat split.
Qed.

Lemma key_func_exit_and_reach_witness :
  key_func "f" startup = Some (print "Optical Flow: 0" (set_useFlow false startup)) /\
  solver (print "Optical Flow: 0" (set_useFlow false startup)) = solver startup.
Proof.
  assert (Hk : key_func "f" startup =
               Some (print "Optical Flow: 0" (set_useFlow false startup)))
    by reflexivity.
  split; [exact Hk|].
  refine (proj1 (proj2 (key_func_exit_and_reach "f" startup) _ Hk _ _ _ _ _ _));
    intros H; discriminate H.
Defined.

(** ** Multi-user compositor, further *)

(** X21.  In a multi-user mode the clear key leaves a black picture: after
    [clearData] every cell composites to the colour (0, 0, 0), with the
    dark palette and with the white-background palette alike, since every
    palette entry is multiplied by a density of 0. *)
Theorem getWeightedColor_after_clear (x y : Z) (w : World) :
  useUserSolver w = true ->
  (R (getWeightedColor x y (clearData w)) == 0)%Q /\
  (G (getWeightedColor x y (clearData w)) == 0)%Q /\
  (B (getWeightedColor x y (clearData w)) == 0)%Q.
Proof.
  intros Hm. unfold clearData. rewrite Hm.
  unfold getWeightedColor. rewrite user_slots.
  unfold Solver.getUserDensityAt.
  cbn [useWhiteBackground set_emitters set_userSolver userSolver].
  destruct (useWhiteBackground w); cbn; repeat split; ring.
Qed.

Lemma getWeightedColor_after_clear_witness :
  useUserSolver userWorld = true /\
  (R (getWeightedColor 5 5 (clearData userWorld)) == 0)%Q.
Proof.
  split; [reflexivity|].
  exact (proj1 (getWeightedColor_after_clear 5 5 userWorld eq_refl)).
Defined.

(** ** Drawing the density *)

Lemma cornerColor_single (fl : SolverPtr) (i j : Z) (w : World) :
  useUserSolver w = false ->
  exists c, cornerColor fl i j w = Some c.
Proof.
  intros Hs. unfold cornerColor. rewrite Hs. cbv zeta.
  eexists. reflexivity.
Qed.

Lemma cornerColor_some (fl : SolverPtr) (i j : Z) (w : World) :
  exists c, cornerColor fl i j w = Some c.
Proof.
  destruct (useUserSolver w) eqn:Hm.
  - unfold cornerColor. rewrite Hm. eexists. reflexivity.
  - apply cornerColor_single, Hm.
Qed.

(** X22.  The colour scale of the single-field display.  In a mode without
    the multi-user solver every corner [drawDensity] draws has the colour
    (0, 3/4 v, v), where v is 0 on a boundary cell and the density plus the
    background offset 0.1 elsewhere: no red, and green three quarters of
    blue. *)
Theorem drawDensity_colour_scale (fl : SolverPtr) (i j : Z) (w : World) :
  useUserSolver w = false ->
  exists c,
    cornerColor fl i j w = Some c /\
    (R c == 0)%Q /\
    (G c == (3 # 4) * B c)%Q /\
    B c = (if isBoundAt fl i j w then 0
           else BG_OFFSET + density (deref fl w) i j)%Q.
Proof.
  intros Hs. unfold cornerColor. rewrite Hs. cbv zeta.
  eexists. split; [reflexivity|]. cbn [R G B mkRGB hsv_V hsv_S hsv_H].
  unfold Solver.getDensityAt. repeat split; cbn; ring.
Qed.

Lemma drawDensity_colour_scale_witness :
  useUserSolver startup = false /\
  exists c, cornerColor PtrSolver 3 3 startup = Some c /\ (R c == 0)%Q.
Proof.
  split; [reflexivity|].
  destruct (drawDensity_colour_scale PtrSolver 3 3 startup eq_refl)
    as (c & Hc & HR & _).
  exists c. split; assumption.
Defined.

Lemma zrange_length (lo hi : Z) : List.length (zrange lo hi) = Z.to_nat (hi - lo + 1).
Proof. unfold zrange. now rewrite length_map, length_seq. Qed.

Lemma densityQuad_some (fl : SolverPtr) (i j : Z) (w : World) :
  exists q, densityQuad fl i j w = Some q /\ List.length q = 4%nat.
Proof.
  unfold densityQuad. cbv zeta.
  destruct (cornerColor_some fl i j w) as (c00 & ->).
  destruct (cornerColor_some fl (i + 1) j w) as (c10 & ->).
  destruct (cornerColor_some fl (i + 1) (j + 1) w) as (c11 & ->).
  destruct (cornerColor_some fl i (j + 1) w) as (c01 & ->).
  eexists. split; reflexivity.
Qed.

Lemma drawDensity_row (fl : SolverPtr) (w : World) (i : Z) (js : list Z)
    (l : list GLVertex) :
  exists l',
    fold_left (addQuad fl w i) js (Some l) = Some l' /\
    List.length l' = (List.length l + 4 * List.length js)%nat.
Proof.
  revert l. induction js as [|j js IH]; intros l.
  - exists l. cbn. split; [reflexivity | lia].
  - cbn [fold_left]. unfold addQuad at 2.
    destruct (densityQuad_some fl i j w) as (q & -> & Hq).
    destruct (IH (l ++ q)) as (l' & Hl' & Hlen).
    exists l'. split; [exact Hl'|].
    rewrite Hlen, length_app, Hq. cbn [List.length]. lia.
Qed.

Lemma drawDensity_rows (fl : SolverPtr) (w : World) (cols0 js : list Z)
    (l : list GLVertex) :
  exists l',
    fold_left (fun acc i => fold_left (addQuad fl w i) js acc) cols0 (Some l)
      = Some l' /\
    List.length l' = (List.length l + 4 * (List.length cols0 * List.length js))%nat.
Proof.
  revert l. induction cols0 as [|i cols0 IH]; intros l.
  - exists l. cbn. split; [reflexivity | lia].
  - cbn [fold_left].
    destruct (drawDensity_row fl w i js l) as (l1 & -> & Hl1).
    destruct (IH l1) as (l' & Hl' & Hlen).
    exists l'. split; [exact Hl'|]. rewrite Hlen, Hl1. cbn [List.length]. lia.
Qed.

(** X23.  [drawDensity] always completes: the hue it converts, 3.25, is one
    the [switch] of [HSV_to_RGB] has a case for, so every corner has a
    colour.  It draws one quad of four vertices per interior cell, 4 N^2
    vertices in all. *)
Theorem drawDensity_completes (fl : SolverPtr) (w : World) :
  exists l,
    drawDensity fl w = Some l /\
    List.length l = (4 * (Z.to_nat (N w) * Z.to_nat (N w)))%nat.
Proof.
  unfold drawDensity.
  destruct (drawDensity_rows fl w (zrange 1 (N w)) (zrange 1 (N w)) [])
    as (l & Hl & Hlen).
  exists l. split; [exact Hl|].
  rewrite Hlen, !zrange_length. cbn [List.length].
  replace (N w - 1 + 1) with (N w) by lia. lia.
Qed.

(** ** The frame *)

Lemma settings_frameConstants (w w' : World) :
  settings w' = settings w -> frameConstants w' = frameConstants w.
Proof.
  intros H.
  change (frameConstants (settings w') = frameConstants (settings w)).
  now rewrite H.
Qed.

Lemma loadImage_frameConstants (s : SensorFrame) (a : App) :
  frameConstants (world (snd (loadImage s a))) = frameConstants (world a) /\
  solver (world (snd (loadImage s a))) = solver (world a) /\
  userSolver (world (snd (loadImage s a))) = userSolver (world a) /\
  emitters (world (snd (loadImage s a))) = emitters (world a) /\
  gui (snd (loadImage s a)) = gui a.
Proof.
  unfold loadImage. destruct (depthResized s); cbn;
    try destruct (useUserSolver (world a)); repeat split.
Qed.

Lemma getForcesFromMouse_settings (fl : SolverPtr) (g : Gui) (w : World) :
  settings (snd (getForcesFromMouse fl g w)) = settings w.
Proof.
  unfold getForcesFromMouse. cbv zeta.
  destruct (negb (mouse_down g 0) && negb (mouse_down g 2) &&
            negb (mouse_down g 1)); [reflexivity|].
  destruct ((mouse_cell_x g (N w) <? 1) || (N w <? mouse_cell_x g (N w)) ||
            (mouse_cell_y g (N w) <? 1) || (N w <? mouse_cell_y g (N w)));
    [reflexivity|].
  destruct (mouse_down g 0), (mouse_down g 1), (mouse_down g 2), fl;
    cbn; try destruct (useUserSolver w); reflexivity.
Qed.

Lemma computeOpticalFlow_frameConstants
    (calc : Mat -> option Mat -> FlowMat -> FlowMat)
    (fl : SolverPtr) (w : World) :
  frameConstants (computeOpticalFlow calc fl w) = frameConstants w.
Proof.
  unfold computeOpticalFlow. destruct (prevFlowImg w) as [prev|];
    [|reflexivity].
  destruct (flow_loops_keep_settings fl
              (N (set_flow (calc prev (flowImg w) (flow w)) w) - 1)
              (set_flow (calc prev (flowImg w) (flow w)) w)) as [Hs _].
  cbv zeta in Hs. cbv zeta.
  set (w1 := for_range 1 _ _ _) in *.
  change (frameConstants w1 = frameConstants w).
  now rewrite (settings_frameConstants _ _ Hs).
Qed.

Lemma emitSplashes_frameConstants (fl : SolverPtr) (fm : FlowMat) (w : World) :
  frameConstants (emitSplashes fl fm w) = frameConstants w.
Proof.
  destruct (useFlow w) eqn:Hflow.
  - unfold emitSplashes. rewrite Hflow.
    rewrite (settings_frameConstants _ _ (renderEmitters_settings fl _)).
    apply settings_frameConstants, splashScan_keeps_solvers.
  - apply settings_frameConstants, (edge_impulses_frame fl fm w Hflow).
Qed.

Lemma drawFunction_frameConstants
    (calc : Mat -> option Mat -> FlowMat -> FlowMat)
    (update uupdate : FluidSolver -> FluidSolver)
    (s : SensorFrame) (a : App) :
  frameConstants (world (drawFunction calc update uupdate s a)) =
  frameConstants (tryChangeMode (world a)).
Proof.
  unfold drawFunction. cbv zeta. cbn [world].
  set (fl := if useUserSolver (world a) then PtrUserSolver else PtrSolver).
  set (a2 := snd (loadImage s {| world := tryChangeMode (world a);
                                 gui := gui a; image := image a |})).
  set (w3 := defineBoundsFromImage fl (image a2) (world a2)).
  set (gw4 := getForcesFromMouse fl (gui a2) w3).
  set (w5 := if useFlow (snd gw4) then computeOpticalFlow calc fl (snd gw4)
             else snd gw4).
  set (w6 := emitSplashes fl (flow w5) w5).
  assert (H2 : frameConstants (world a2) = frameConstants (tryChangeMode (world a)))
    by (apply (loadImage_frameConstants s
                 {| world := tryChangeMode (world a); gui := gui a;
                    image := image a |})).
  assert (H3 : frameConstants w3 = frameConstants (world a2))
    by (apply settings_frameConstants, defineBoundsFromImage_keeps).
  assert (H4 : frameConstants (snd gw4) = frameConstants w3)
    by (apply settings_frameConstants, getForcesFromMouse_settings).
  assert (H5 : frameConstants w5 = frameConstants (snd gw4))
    by (unfold w5; destruct (useFlow (snd gw4));
        [apply computeOpticalFlow_frameConstants | reflexivity]).
  assert (H6 : frameConstants w6 = frameConstants w5)
    by (apply emitSplashes_frameConstants).
  transitivity (frameConstants w6); [|congruence].
  destruct (useUserSolver w6); reflexivity.
Qed.

Lemma changeMode_N (newMode : Z) (w : World) : N (changeMode newMode w) = N w.
Proof. mode_cases newMode w; reflexivity. Qed.

Lemma tryChangeMode_N (w : World) : N (tryChangeMode w) = N w.
Proof.
  unfold tryChangeMode. destruct (autoChangeDue w); [|reflexivity].
  cbv zeta. rewrite changeMode_N. destruct (max_mode _ <? mode _); reflexivity.
Qed.

(** X24.  A frame changes the mode machine through [tryChangeMode] alone.
    After [drawFunction] the globals of the automatic cycle, the seven
    configuration globals and the size of the grid are what
    [tryChangeMode] left: neither the sensor frame, nor the mouse, nor the
    flow, nor the emitters, nor the step of the fluid engine assigns one of
    them. *)
Theorem drawFunction_mode_machine
    (calc : Mat -> option Mat -> FlowMat -> FlowMat)
    (update uupdate : FluidSolver -> FluidSolver)
    (s : SensorFrame) (a : App) :
  cycleOf (world (drawFunction calc update uupdate s a)) =
    cycleOf (tryChangeMode (world a)) /\
  configOf (world (drawFunction calc update uupdate s a)) =
    configOf (tryChangeMode (world a)) /\
  N (world (drawFunction calc update uupdate s a)) = N (world a).
Proof.
  pose proof (drawFunction_frameConstants calc update uupdate s a) as H.
  split; [exact (f_equal (fun t => fst (fst t)) H)|].
  split; [exact (f_equal (fun t => snd (fst t)) H)|].
  rewrite <- (tryChangeMode_N (world a)). exact (f_equal snd H).
Qed.

Lemma tryChangeMode_cycleStep (w : World) :
  cycleOf (tryChangeMode w) = cycleStep (cycleOf w).
Proof.
  unfold tryChangeMode, autoChangeDue, cycleStep, cycleOf.
  destruct (autoChangeMode w && (iterations_per_mode w <? iterations w));
    [|reflexivity].
  cbv zeta.
  match goal with
  | |- context [changeMode ?m ?v] =>
      destruct (changeMode_cycle_globals m v) as (Ha & Hp & Hx & Hm);
      rewrite Ha, Hp, Hx, Hm, (changeMode_iterations m v)
  end.
  cbn [max_mode mode set_mode set_iterations].
  destruct (max_mode w <? mode w + 1); reflexivity.
Qed.

Lemma tryChangeMode_cycleOf (w w' : World) :
  cycleOf w = cycleOf w' -> cycleOf (tryChangeMode w) = cycleOf (tryChangeMode w').
Proof. intros H. now rewrite !tryChangeMode_cycleStep, H. Qed.

Lemma ticks_cycleOf (k : nat) (w w' : World) :
  cycleOf w = cycleOf w' -> cycleOf (ticks k w) = cycleOf (ticks k w').
Proof.
  intros H. induction k as [|k IH]; [exact H|].
  cbn [ticks]. now apply tryChangeMode_cycleOf.
Qed.

Lemma ticks_front (k : nat) (w : World) :
  ticks (S k) w = ticks k (tryChangeMode w).
Proof. exact (proj1 (ticks_add 1 k w)). Qed.

(** X25.  Frames are ticks.  After a run of frames with no key and no mouse
    event between them, whatever the sensor delivers, the automatic-cycling
    flag, the mode, [max_mode], the frame counter and the threshold are
    what as many calls of [tryChangeMode] alone leave. *)
Theorem runFrames_are_ticks
    (calc : Mat -> option Mat -> FlowMat -> FlowMat)
    (update uupdate : FluidSolver -> FluidSolver)
    (ss : list SensorFrame) (a : App) :
  cycleOf (world (runFrames calc update uupdate ss a)) =
  cycleOf (ticks (List.length ss) (world a)).
Proof.
  assert (Hgen : forall (w : World),
            cycleOf (world a) = cycleOf w ->
            cycleOf (world (runFrames calc update uupdate ss a)) =
            cycleOf (ticks (List.length ss) w));
    [|apply Hgen; reflexivity].
  revert a. induction ss as [|s rest IH]; intros a w Hw; [exact Hw|].
  cbn [runFrames List.length]. rewrite ticks_front. apply IH.
  transitivity (cycleOf (tryChangeMode (world a))).
  - exact (f_equal (fun t => fst (fst t))
             (drawFunction_frameConstants calc update uupdate s a)).
  - now apply tryChangeMode_cycleOf.
Qed.

(** ** The solver object that is not in use *)

Lemma frameConstants_useUserSolver (w w' : World) :
  frameConstants w' = frameConstants w -> useUserSolver w' = useUserSolver w.
Proof.
  intros H.
  exact (f_equal (fun t => snd (fst (snd (fst t)))) H).
Qed.

Lemma getForcesFromMouse_other (g : Gui) (w : World) :
  deref (otherPtr (activePtr w)) (snd (getForcesFromMouse (activePtr w) g w)) =
  deref (otherPtr (activePtr w)) w.
Proof.
  unfold getForcesFromMouse, activePtr. cbv zeta.
  destruct (negb (mouse_down g 0) && negb (mouse_down g 2) &&
            negb (mouse_down g 1)); [reflexivity|].
  destruct ((mouse_cell_x g (N w) <? 1) || (N w <? mouse_cell_x g (N w)) ||
            (mouse_cell_y g (N w) <? 1) || (N w <? mouse_cell_y g (N w)));
    [reflexivity|].
  destruct (useUserSolver w) eqn:Hm;
    destruct (mouse_down g 0), (mouse_down g 1), (mouse_down g 2);
    cbn; rewrite ?Hm; reflexivity.
Qed.

Lemma computeOpticalFlow_other
    (calc : Mat -> option Mat -> FlowMat -> FlowMat)
    (fl : SolverPtr) (w : World) :
  deref (otherPtr fl) (computeOpticalFlow calc fl w) = deref (otherPtr fl) w.
Proof.
  unfold computeOpticalFlow. destruct (prevFlowImg w) as [prev|];
    [|destruct fl; reflexivity].
  cbv zeta.
  set (w0 := set_flow (calc prev (flowImg w) (flow w)) w).
  transitivity (deref (otherPtr fl) w0); [|destruct fl; reflexivity].
  match goal with
  | |- deref _ (swap_flow_images ?v) = _ =>
      transitivity (deref (otherPtr fl) v); [destruct fl; reflexivity|]
  end.
  apply (for_range_inv
           (fun w' => deref (otherPtr fl) w' = deref (otherPtr fl) w0));
    [reflexivity|].
  intros y w1 _ I1.
  apply (for_range_inv
           (fun w' => deref (otherPtr fl) w' = deref (otherPtr fl) w0));
    [exact I1|].
  intros x w2 _ I2. rewrite <- I2.
  unfold addVertVelocityAt, addHorzVelocityAt. destruct fl; reflexivity.
Qed.

Lemma injectCell_other (e : Emitter) (x y : Z) (w : World) :
  deref (otherPtr (activePtr w)) (injectCell (activePtr w) e x y w) =
  deref (otherPtr (activePtr w)) w.
Proof.
  unfold injectCell, activePtr. cbv zeta.
  destruct (useUserSolver w) eqn:Hm; cbn; rewrite ?Hm; reflexivity.
Qed.

Lemma renderEmitters_other (w : World) :
  deref (otherPtr (activePtr w)) (renderEmitters (activePtr w) w) =
  deref (otherPtr (activePtr w)) w.
Proof.
  set (fl := activePtr w).
  assert (Hloop : forall es w1,
            activePtr w1 = fl ->
            deref (otherPtr fl) (snd (renderLoop fl es w1)) =
            deref (otherPtr fl) w1).
  { induction es as [|e rest IH]; intros w1 Hact; [reflexivity|].
    cbn [renderLoop]. destruct (emitterHasExpired e); [now apply IH|].
    assert (Hinj : activePtr (injectEmitter fl e w1) = fl /\
                   deref (otherPtr fl) (injectEmitter fl e w1) =
                   deref (otherPtr fl) w1).
    { unfold injectEmitter.
      apply (for_range_inv
               (fun w' => activePtr w' = fl /\
                          deref (otherPtr fl) w' = deref (otherPtr fl) w1));
        [split; [exact Hact | reflexivity]|].
      intros y w2 _ I2.
      apply (for_range_inv
               (fun w' => activePtr w' = fl /\
                          deref (otherPtr fl) w' = deref (otherPtr fl) w1));
        [exact I2|].
      intros x w3 _ [Ha Ho]. split.
      - unfold activePtr in *.
        rewrite (settings_useUserSolver w3 _ (proj1 (injectCell_keeps fl e x y w3))).
        exact Ha.
      - rewrite <- Ho, <- Ha. apply injectCell_other. }
    destruct Hinj as [Ha Ho]. specialize (IH (injectEmitter fl e w1) Ha).
    destruct (renderLoop fl rest (injectEmitter fl e w1)) as [rest' w2].
    cbn in *. congruence. }
  unfold renderEmitters. specialize (Hloop (emitters w) w eq_refl).
  destruct (renderLoop fl (emitters w) w) as [es w1]. cbn in Hloop.
  destruct fl; exact Hloop.
Qed.

Lemma emitSplashes_other (fm : FlowMat) (w : World) :
  deref (otherPtr (activePtr w)) (emitSplashes (activePtr w) fm w) =
  deref (otherPtr (activePtr w)) w.
Proof.
  destruct (useFlow w) eqn:Hflow.
  - unfold emitSplashes. rewrite Hflow.
    destruct (splashScan_keeps_solvers (activePtr w) fm w) as (Hs & Hu & Hset).
    pose proof (settings_useUserSolver _ _ Hset) as Hm.
    assert (Hact : activePtr (splashScan (activePtr w) fm w) = activePtr w)
      by (unfold activePtr at 1 3; now rewrite Hm).
    set (fl := activePtr w) in *. set (w1 := splashScan fl fm w) in *.
    rewrite <- Hact. rewrite renderEmitters_other. rewrite Hact.
    destruct fl; cbn; assumption.
  - apply (edge_impulses_frame (activePtr w) fm w Hflow).
Qed.

(** X26.  A frame without a mode change never touches the solver object
    that is not in use.  When [tryChangeMode] does not change the mode,
    every write of [drawFunction], from the boundary mapper to the step of
    the fluid engine, goes to the solver object the configuration selects;
    the other one comes out of the frame as it went in. *)
Theorem drawFunction_keeps_other_solver
    (calc : Mat -> option Mat -> FlowMat -> FlowMat)
    (update uupdate : FluidSolver -> FluidSolver)
    (s : SensorFrame) (a : App) :
  autoChangeDue (world a) = false ->
  deref (otherPtr (activePtr (world a)))
    (world (drawFunction calc update uupdate s a)) =
  deref (otherPtr (activePtr (world a))) (world a).
Proof.
  intros Hdue. unfold drawFunction. cbv zeta. cbn [world].
  fold (activePtr (world a)). set (fl := activePtr (world a)).
  assert (Htick : tryChangeMode (world a) =
                  set_iterations (iterations (world a) + 1) (world a))
    by (unfold tryChangeMode; now rewrite Hdue).
  rewrite Htick.
  set (w1 := set_iterations (iterations (world a) + 1) (world a)).
  set (a2 := snd (loadImage s {| world := w1; gui := gui a; image := image a |})).
  set (w3 := defineBoundsFromImage fl (image a2) (world a2)).
  set (gw4 := getForcesFromMouse fl (gui a2) w3).
  set (w5 := if useFlow (snd gw4) then computeOpticalFlow calc fl (snd gw4)
             else snd gw4).
  set (w6 := emitSplashes fl (flow w5) w5).
  destruct (loadImage_frameConstants s
              {| world := w1; gui := gui a; image := image a |})
    as (Hc2 & Hs2 & Hu2 & _). fold a2 in Hc2, Hs2, Hu2. cbn [world] in Hc2, Hs2, Hu2.
  assert (Hm2 : useUserSolver (world a2) = useUserSolver (world a))
    by (apply (frameConstants_useUserSolver w1), Hc2).
  assert (Ho2 : deref (otherPtr fl) (world a2) = deref (otherPtr fl) (world a))
    by (destruct fl; cbn; assumption).
  destruct (defineBoundsFromImage_keeps fl (image a2) (world a2))
    as (Hset3 & _ & Ho3). fold w3 in Hset3, Ho3.
  assert (Hm3 : useUserSolver w3 = useUserSolver (world a))
    by (rewrite (settings_useUserSolver _ _ Hset3); exact Hm2).
  assert (Hact3 : activePtr w3 = fl) by (unfold activePtr, fl; now rewrite Hm3).
  assert (Ho4 : deref (otherPtr fl) (snd gw4) = deref (otherPtr fl) w3)
    by (unfold gw4; rewrite <- Hact3; apply getForcesFromMouse_other).
  assert (Hm4 : useUserSolver (snd gw4) = useUserSolver (world a))
    by (unfold gw4;
        rewrite (settings_useUserSolver _ _ (getForcesFromMouse_settings fl _ w3));
        exact Hm3).
  assert (Ho5 : deref (otherPtr fl) w5 = deref (otherPtr fl) (snd gw4))
    by (unfold w5; destruct (useFlow (snd gw4));
        [apply computeOpticalFlow_other | reflexivity]).
  assert (Hm5 : useUserSolver w5 = useUserSolver (world a)).
  { unfold w5. destruct (useFlow (snd gw4)); [|exact Hm4].
    rewrite (frameConstants_useUserSolver _ _
               (computeOpticalFlow_frameConstants calc fl (snd gw4))).
    exact Hm4. }
  assert (Hact5 : activePtr w5 = fl) by (unfold activePtr, fl; now rewrite Hm5).
  assert (Ho6 : deref (otherPtr fl) w6 = deref (otherPtr fl) w5)
    by (unfold w6; rewrite <- Hact5; apply emitSplashes_other).
  assert (Hm6 : useUserSolver w6 = useUserSolver (world a)).
  { unfold w6.
    rewrite (frameConstants_useUserSolver _ _
               (emitSplashes_frameConstants fl (flow w5) w5)).
    exact Hm5. }
  transitivity (deref (otherPtr fl) w6); [|congruence].
  rewrite Hm6. unfold fl, activePtr.
  destruct (useUserSolver (world a)); reflexivity.
Qed.

Lemma drawFunction_keeps_other_solver_witness :
  autoChangeDue (world startApp) = false /\
  deref (otherPtr (activePtr (world startApp)))
    (world (drawFunction uniformFlow (fun s => s) (fun s => s)
              sampleSensor startApp)) =
  deref (otherPtr (activePtr (world startApp))) (world startApp).
Proof.
  split; [reflexivity|].
  exact (drawFunction_keeps_other_solver uniformFlow (fun s => s) (fun s => s)
           sampleSensor startApp eq_refl).
Defined.

(** ** A frame the sensor does not deliver *)

Lemma settings_flow_fields (w w' : World) :
  settings w' = settings w ->
  flow w' = flow w /\ flowImg w' = flowImg w /\
  prevFlowImg w' = prevFlowImg w /\ stdout w' = stdout w /\
  useFlow w' = useFlow w.
Proof.
  intros H. repeat split.
  - exact (f_equal flow H).
  - exact (f_equal flowImg H).
  - exact (f_equal prevFlowImg H).
  - exact (f_equal stdout H).
  - exact (f_equal useFlow H).
Qed.

Lemma computeOpticalFlow_estimate
    (calc : Mat -> option Mat -> FlowMat -> FlowMat)
    (fl : SolverPtr) (w : World) (prev : Mat) :
  prevFlowImg w = Some prev ->
  settings (computeOpticalFlow calc fl w) =
  settings (swap_flow_images (set_flow (calc prev (flowImg w) (flow w)) w)).
Proof.
  intros Hprev. unfold computeOpticalFlow. rewrite Hprev. cbv zeta.
  destruct (flow_loops_keep_settings fl
              (N (set_flow (calc prev (flowImg w) (flow w)) w) - 1)
              (set_flow (calc prev (flowImg w) (flow w)) w)) as [Hs _].
  cbv zeta in Hs.
  set (w1 := for_range 1 _ _ _) in *.
  change (swap_flow_images (settings w1) =
          swap_flow_images
            (settings (set_flow (calc prev (flowImg w) (flow w)) w))).
  now rewrite Hs.
Qed.

(** X27.  A frame the sensor does not deliver is run all the same.
    [drawFunction] ignores the return code of [loadImage]: on an empty
    sensor frame, in a frame without a mode change and with optical flow
    on, the error line is printed once, the silhouette image stays the one
    of the last frame, and the estimator is still run, on the two images
    that are stored; the two images are then exchanged as in every other
    frame. *)
Theorem drawFunction_dropped_frame
    (calc : Mat -> option Mat -> FlowMat -> FlowMat)
    (update uupdate : FluidSolver -> FluidSolver)
    (s : SensorFrame) (a : App) (prev : Mat) :
  depthResized s = None ->
  autoChangeDue (world a) = false ->
  useFlow (world a) = true ->
  prevFlowImg (world a) = Some prev ->
  image (drawFunction calc update uupdate s a) = image a /\
  stdout (world (drawFunction calc update uupdate s a)) =
    stdout (world a) ++ ["ERROR: Cannot load frame"%string] /\
  flow (world (drawFunction calc update uupdate s a)) =
    calc prev (flowImg (world a)) (flow (world a)) /\
  prevFlowImg (world (drawFunction calc update uupdate s a)) =
    flowImg (world a) /\
  flowImg (world (drawFunction calc update uupdate s a)) = Some prev.
Proof.
  intros Hempty Hdue Hflow Hprev. unfold drawFunction. cbv zeta.
  cbn [world image].
  fold (activePtr (world a)). set (fl := activePtr (world a)).
  assert (Htick : tryChangeMode (world a) =
                  set_iterations (iterations (world a) + 1) (world a))
    by (unfold tryChangeMode; now rewrite Hdue).
  rewrite Htick.
  set (w1 := set_iterations (iterations (world a) + 1) (world a)).
  assert (Hload : snd (loadImage s {| world := w1; gui := gui a; image := image a |}) =
                  {| world := print "ERROR: Cannot load frame" w1;
                     gui := gui a; image := image a |})
    by (unfold loadImage; now rewrite Hempty).
  rewrite Hload. cbn [world image gui].
  set (w2 := print "ERROR: Cannot load frame" w1).
  set (w3 := defineBoundsFromImage fl (image a) w2).
  set (gw4 := getForcesFromMouse fl (gui a) w3).
  destruct (settings_flow_fields w2 w3
              (proj1 (defineBoundsFromImage_keeps fl (image a) w2)))
    as (Hf3 & Hi3 & Hp3 & Ho3 & Hu3).
  destruct (settings_flow_fields w3 (snd gw4)
              (getForcesFromMouse_settings fl (gui a) w3))
    as (Hf4 & Hi4 & Hp4 & Ho4 & Hu4).
  assert (Hu : useFlow (snd gw4) = true) by (rewrite Hu4, Hu3; exact Hflow).
  assert (Hp : prevFlowImg (snd gw4) = Some prev)
    by (rewrite Hp4, Hp3; exact Hprev).
  rewrite Hu.
  pose proof (computeOpticalFlow_estimate calc fl (snd gw4) prev Hp) as Hest.
  set (w5 := computeOpticalFlow calc fl (snd gw4)) in *. clearbody w5.
  destruct (settings_flow_fields _ w5 Hest) as (Hf5 & Hi5 & Hp5 & Ho5 & Hu5).
  cbn in Hf5, Hi5, Hp5, Ho5, Hu5.
  set (w6 := emitSplashes fl (flow w5) w5).
  assert (Hset6 : settings w6 = settings w5).
  { unfold w6, emitSplashes. rewrite Hu5, Hu.
    rewrite renderEmitters_settings.
    apply (splashScan_keeps_solvers fl (flow w5) w5). }
  destruct (settings_flow_fields w5 w6 Hset6) as (Hf6 & Hi6 & Hp6 & Ho6 & _).
  assert (Hlast : forall w7,
            w7 = (if useUserSolver w6
                  then set_userSolver (uupdate (userSolver w6)) w6
                  else set_solver (update (solver w6)) w6) ->
            flow w7 = flow w6 /\ flowImg w7 = flowImg w6 /\
            prevFlowImg w7 = prevFlowImg w6 /\ stdout w7 = stdout w6)
    by (intros w7 ->; destruct (useUserSolver w6); repeat split).
  destruct (Hlast _ eq_refl) as (Hf7 & Hi7 & Hp7 & Ho7).
  split; [reflexivity|].
  rewrite Hf7, Hi7, Hp7, Ho7, Hf6, Hi6, Hp6, Ho6, Hf5, Hi5, Hp5, Ho5.
  rewrite Hf4, Hi4, Ho4, Hf3, Hi3, Ho3, Hp.
  repeat split.
Qed.

Lemma drawFunction_dropped_frame_witness :
  depthResized droppedSensor = None /\
  prevFlowImg (world runningApp) = Some maskB /\
  flowImg (world runningApp) = Some maskA /\
  image (drawFunction uniformFlow (fun s => s) (fun s => s)
           droppedSensor runningApp) = maskB /\
  flow (world (drawFunction uniformFlow (fun s => s) (fun s => s)
                 droppedSensor runningApp)) =
    uniformFlow maskB (Some maskA) (flow (world runningApp)).
Proof.
  pose proof (drawFunction_dropped_frame uniformFlow (fun s => s) (fun s => s)
                droppedSensor runningApp maskB eq_refl eq_refl eq_refl eq_refl)
    as (Himg & _ & Hflow & _).
  do 3 (split; [reflexivity|]).
  split; [exact Himg | exact Hflow].
Defined.

(** ** From a gesture to a velocity *)

Lemma interior_mouse_inside (g : Gui) (w : World) :
  interior (N w) (mouse_cell_x g (N w)) (mouse_cell_y g (N w)) ->
  (mouse_cell_x g (N w) <? 1) || (N w <? mouse_cell_x g (N w)) ||
  (mouse_cell_y g (N w) <? 1) || (N w <? mouse_cell_y g (N w)) = false.
Proof.
  unfold interior. intros [[Hx1 Hx2] [Hy1 Hy2]].
  apply Z.ltb_ge in Hx1, Hx2, Hy1, Hy2. now rewrite Hx1, Hx2, Hy1, Hy2.
Qed.

(** With the left button held over a cell of the grid, a call adds
    [force] times the displacement since the recorded position to the
    velocity of that cell. *)
Lemma getForcesFromMouse_left_button (fl : SolverPtr) (g : Gui) (w : World) :
  mouse_down g 0 = true ->
  interior (N w) (mouse_cell_x g (N w)) (mouse_cell_y g (N w)) ->
  (horzVelocity (deref fl (snd (getForcesFromMouse fl g w)))
     (mouse_cell_x g (N w)) (mouse_cell_y g (N w)) ==
   horzVelocity (deref fl w) (mouse_cell_x g (N w)) (mouse_cell_y g (N w)) +
   force w * inject_Z (mx g - omx g))%Q /\
  (vertVelocity (deref fl (snd (getForcesFromMouse fl g w)))
     (mouse_cell_x g (N w)) (mouse_cell_y g (N w)) ==
   vertVelocity (deref fl w) (mouse_cell_x g (N w)) (mouse_cell_y g (N w)) +
   force w * inject_Z (omy g - my g))%Q.
Proof.
  intros Hleft Hin. unfold getForcesFromMouse. cbv zeta.
  rewrite Hleft, (interior_mouse_inside g w Hin). cbn [negb andb snd].
  set (cx := mouse_cell_x g (N w)). set (cy := mouse_cell_y g (N w)).
  destruct (mouse_down g 1), (mouse_down g 2), fl;
    cbn; try destruct (useUserSolver w); cbn;
    rewrite ?upd_same; split; reflexivity.
Qed.

(** X28.  From a gesture to a velocity.  With the left button held, a
    move of the mouse to pixel [(x, y)] over a cell of the grid adds
    [force * (x - omx)] to the horizontal and [force * (omy - y)] to the
    vertical velocity of that cell in the next frame: the displacement
    since the last recorded position, the vertical one turned upwards.  A
    press of the left button at [(x, y)] adds [force * (x - y)] and
    [force * (omy - y)] instead: [mouse_func] stores [y] in [omx] and
    leaves [omy] as it was, so a click gives an impulse without any
    move. *)
Theorem mouse_gesture_impulse
    (fl : SolverPtr) (g : Gui) (w : World) (x y : Z) :
  interior (N w) (mouse_cell_x (motion_func x y g) (N w))
                 (mouse_cell_y (motion_func x y g) (N w)) ->
  (mouse_down g 0 = true ->
   (horzVelocity (deref fl (snd (getForcesFromMouse fl (motion_func x y g) w)))
      (mouse_cell_x (motion_func x y g) (N w))
      (mouse_cell_y (motion_func x y g) (N w)) ==
    horzVelocity (deref fl w)
      (mouse_cell_x (motion_func x y g) (N w))
      (mouse_cell_y (motion_func x y g) (N w)) +
    force w * inject_Z (x - omx g))%Q /\
   (vertVelocity (deref fl (snd (getForcesFromMouse fl (motion_func x y g) w)))
      (mouse_cell_x (motion_func x y g) (N w))
      (mouse_cell_y (motion_func x y g) (N w)) ==
    vertVelocity (deref fl w)
      (mouse_cell_x (motion_func x y g) (N w))
      (mouse_cell_y (motion_func x y g) (N w)) +
    force w * inject_Z (omy g - y))%Q) /\
  (horzVelocity
     (deref fl (snd (getForcesFromMouse fl (mouse_func 0 true x y g) w)))
     (mouse_cell_x (motion_func x y g) (N w))
     (mouse_cell_y (motion_func x y g) (N w)) ==
   horzVelocity (deref fl w)
     (mouse_cell_x (motion_func x y g) (N w))
     (mouse_cell_y (motion_func x y g) (N w)) +
   force w * inject_Z (x - y))%Q /\
  (vertVelocity
     (deref fl (snd (getForcesFromMouse fl (mouse_func 0 true x y g) w)))
     (mouse_cell_x (motion_func x y g) (N w))
     (mouse_cell_y (motion_func x y g) (N w)) ==
   vertVelocity (deref fl w)
     (mouse_cell_x (motion_func x y g) (N w))
     (mouse_cell_y (motion_func x y g) (N w)) +
   force w * inject_Z (omy g - y))%Q.
Proof.
  intros Hin. split.
  - intros Hleft.
    exact (getForcesFromMouse_left_button fl (motion_func x y g) w Hleft Hin).
  - change (mouse_cell_x (motion_func x y g) (N w))
      with (mouse_cell_x (mouse_func 0 true x y g) (N w)) in *.
    change (mouse_cell_y (motion_func x y g) (N w))
      with (mouse_cell_y (mouse_func 0 true x y g) (N w)) in *.
    exact (getForcesFromMouse_left_button fl (mouse_func 0 true x y g) w
             eq_refl Hin).
Qed.

Lemma mouse_gesture_impulse_witness :
  interior (N startup) (mouse_cell_x (motion_func 100 200 idleGui) (N startup))
                       (mouse_cell_y (motion_func 100 200 idleGui) (N startup)) /\
  (horzVelocity
     (deref PtrSolver
        (snd (getForcesFromMouse PtrSolver (mouse_func 0 true 100 200 idleGui)
                startup)))
     (mouse_cell_x (motion_func 100 200 idleGui) (N startup))
     (mouse_cell_y (motion_func 100 200 idleGui) (N startup)) ==
   horzVelocity (deref PtrSolver startup)
     (mouse_cell_x (motion_func 100 200 idleGui) (N startup))
     (mouse_cell_y (motion_func 100 200 idleGui) (N startup)) +
   force startup * inject_Z (100 - 200))%Q.
Proof.
  assert (Hin : interior (N startup)
                  (mouse_cell_x (motion_func 100 200 idleGui) (N startup))
                  (mouse_cell_y (motion_func 100 200 idleGui) (N startup)))
    by (vm_compute; repeat split; discriminate).
  split; [exact Hin|].
  exact (proj1 (proj2 (mouse_gesture_impulse PtrSolver idleGui startup
                         100 200 Hin))).
Defined.
